(** * xtream2m3u: the three-step playlist wizard of [frontend/script.js]

    The page script keeps its state in two module-level variables
    ([categories], [currentStep]) and in the document: the credential
    inputs, the VOD checkbox, the filter-mode radio group, the category
    chips with their [selected] class, the results pane and the download
    link.  The embedding below makes that state an explicit record, turns
    every handler of the script into a function on it, and replaces each
    [await fetch(...)] by the reply the transport delivers. *)

From stdpp Require Import base list strings pretty.
From Stdlib Require Import Ascii NArith Lia.

Local Open Scope string_scope.
Local Open Scope list_scope.

(** ** Strings of the page

    A DOM string is held as the bytes of its UTF-8 encoding. *)
Module Js.

(** [!s] on a string: only the empty string is falsy. *)
Definition falsy (s : string) : bool :=
  match s with
  | EmptyString => true
  | String _ _ => false
  end.

(** [a || b] on an optional string property: [undefined] and [""] both
    fall through to [b]. *)
Definition orElse (a : option string) (b : string) : string :=
  match a with
  | Some s => if falsy s then b else s
  | None => b
  end.

Fixpoint bytes (l : list N) : string :=
  match l with
  | [] => EmptyString
  | n :: r => String (ascii_of_N n) (bytes r)
  end.

(** The code points [String.prototype.trim] strips (ECMAScript WhiteSpace
    and LineTerminator), each as its UTF-8 byte sequence. *)
Definition whiteSpace : list string :=
  map bytes
    [ [9%N]; [10%N]; [11%N]; [12%N]; [13%N]; [32%N];
      [194%N; 160%N];
      [225%N; 154%N; 128%N];
      [226%N; 128%N; 128%N]; [226%N; 128%N; 129%N]; [226%N; 128%N; 130%N];
      [226%N; 128%N; 131%N]; [226%N; 128%N; 132%N]; [226%N; 128%N; 133%N];
      [226%N; 128%N; 134%N]; [226%N; 128%N; 135%N]; [226%N; 128%N; 136%N];
      [226%N; 128%N; 137%N]; [226%N; 128%N; 138%N];
      [226%N; 128%N; 168%N]; [226%N; 128%N; 169%N]; [226%N; 128%N; 175%N];
      [226%N; 129%N; 159%N];
      [227%N; 128%N; 128%N];
      [239%N; 187%N; 191%N] ].

Fixpoint stripPrefix (t s : string) : option string :=
  match t, s with
  | EmptyString, _ => Some s
  | String a t', String b s' =>
      if Ascii.eqb a b then stripPrefix t' s' else None
  | String _ _, EmptyString => None
  end.

Fixpoint firstSome {A B} (f : A -> option B) (l : list A) : option B :=
  match l with
  | [] => None
  | x :: r => match f x with Some y => Some y | None => firstSome f r end
  end.

(** The rest of [s] behind one leading white-space character, if any. *)
Definition dropWhiteSpace (s : string) : option string :=
  firstSome (fun t => stripPrefix t s) whiteSpace.

Fixpoint trimStartN (n : nat) (s : string) : string :=
  match n with
  | O => s
  | S n' =>
      match dropWhiteSpace s with
      | Some r => trimStartN n' r
      | None => s
      end
  end.

Definition trimStart (s : string) : string := trimStartN (String.length s) s.

Fixpoint trimEnd (s : string) : string :=
  match s with
  | EmptyString => EmptyString
  | String c r =>
      if falsy (trimStart (String c r)) then EmptyString
      else String c (trimEnd r)
  end.

Definition trim (s : string) : string := trimEnd (trimStart s).

(** [Array.prototype.join]. *)
Fixpoint join (sep : string) (l : list string) : string :=
  match l with
  | [] => ""
  | [x] => x
  | x :: r => x +:+ sep +:+ join sep r
  end.

(** Whether the byte [n] occurs in [s]. *)
Fixpoint hasByte (n : N) (s : string) : bool :=
  match s with
  | EmptyString => false
  | String c r => N.eqb (N_of_ascii c) n || hasByte n r
  end.

(** A string that holds no [<]: assigned to [innerHTML] inside an element
    it can only become text of that element (character references
    included), never a further element. *)
Definition plainText (s : string) : bool := negb (hasByte 60%N s).

(** A string that is its own text when assigned to [innerHTML]: besides
    [<] it holds no [&] (no character reference), no NUL (dropped by the
    parser) and no carriage return (turned into a line feed). *)
Definition literalText (s : string) : bool :=
  negb (hasByte 60%N s || hasByte 38%N s || hasByte 0%N s || hasByte 13%N s).

(** The double quote, which a literal here cannot hold. *)
Definition quote : string := bytes [34%N].

(** Completion of a piece of script: a value, or a thrown error of which
    only [message] is ever read. *)
Inductive Result (A : Type) : Type :=
| Ok (a : A)
| Throw (message : string).
Arguments Ok {A} a.
Arguments Throw {A} message.

Definition bind {A B} (r : Result A) (k : A -> Result B) : Result B :=
  match r with
  | Ok a => k a
  | Throw m => Throw m
  end.

(** [l.forEach(x => ...)] over an accumulator, stopping at the first throw. *)
Fixpoint forEach {S A} (f : S -> A -> Result S) (l : list A) (s : S) : Result S :=
  match l with
  | [] => Ok s
  | x :: r => bind (f s x) (forEach f r)
  end.

End Js.

(** ** URLSearchParams: an ordered list of pairs, duplicates allowed *)
Module Params.

Definition t := list (string * string).

Definition append (k v : string) (q : t) : t := q ++ [(k, v)].

Definition keys (q : t) : list string := map fst q.

(** [URLSearchParams.prototype.getAll]. *)
Definition getAll (k : string) (q : t) : list string :=
  map snd (filter (fun kv => fst kv = k) q).

End Params.

(** A GET request: the path and the parameters handed to [fetch]. *)
Record Request := { endpoint : string; query : Params.t }.

(** ** Categories and their grouping *)

(** One record of the [/categories] reply. *)
Record RawCategory := {
  category_id : string;
  category_name : string;
  content_type : option string
}.

(** [category.content_type || "live"]. *)
Definition contentTypeOf (c : RawCategory) : string :=
  Js.orElse (content_type c) "live".

(** The [groupedCategories] object of [displayCategoryChips]. *)
Record Grouped := {
  live : list RawCategory;
  vod : list RawCategory;
  series : list RawCategory
}.

(** Property names every object literal inherits from [Object.prototype];
    [groupedCategories[k]] is truthy for them, but is no array. *)
Definition objectPrototypeKeys : list string :=
  [ "constructor"; "hasOwnProperty"; "isPrototypeOf"; "propertyIsEnumerable";
    "toLocaleString"; "toString"; "valueOf"; "__proto__";
    "__defineGetter__"; "__defineSetter__"; "__lookupGetter__";
    "__lookupSetter__" ].

(** Message of the TypeError raised on calling the missing [push] (the
    wording is the engine's). *)
Definition pushIsNotAFunction : string :=
  "groupedCategories[contentType].push is not a function".

(** Body of the [categories.forEach] of [displayCategoryChips].  The
    lookup [groupedCategories[contentType]] finds one of the three arrays
    for an own key, an inherited value without [push] for a key of
    [Object.prototype] (the call throws), and [undefined] for any other
    key (the guard skips the record). *)
Definition pushCategory (g : Grouped) (category : RawCategory) : Js.Result Grouped :=
  let contentType := contentTypeOf category in
  if decide (contentType = "live") then
    Js.Ok {| live := live g ++ [category]; vod := vod g; series := series g |}
  else if decide (contentType = "vod") then
    Js.Ok {| live := live g; vod := vod g ++ [category]; series := series g |}
  else if decide (contentType = "series") then
    Js.Ok {| live := live g; vod := vod g; series := series g ++ [category] |}
  else if bool_decide (contentType ∈ objectPrototypeKeys) then
    Js.Throw pushIsNotAFunction
  else Js.Ok g.

(** [{ live: [], vod: [], series: [] }]. *)
Definition emptyGroups : Grouped := {| live := []; vod := []; series := [] |}.

(** The grouping loop over the fetched categories. *)
Definition groupCategories (categories : list RawCategory) : Js.Result Grouped :=
  Js.forEach pushCategory categories emptyGroups.

(** ** The document *)

(** A [div.category-chip] created by the script: its [data-*] attributes,
    the markup assigned to its [innerHTML], and whether it carries the
    [selected] class.  The markup is kept as written; the elements the
    browser parses from it are not part of the model, so a chip stands for
    one element of the document only while that markup holds nothing but
    the [span] and text (see [Js.plainText]). *)
Record Chip := {
  categoryId : string;
  categoryName : string;
  contentType : string;
  innerHTML : string;
  selected : bool
}.

(** [classList.add("selected")] for [true], [classList.remove] for [false]. *)
Definition setSelected (b : bool) (chip : Chip) : Chip :=
  {| categoryId := categoryId chip; categoryName := categoryName chip;
     contentType := contentType chip; innerHTML := innerHTML chip;
     selected := b |}.

(** The template [<span class="chip-text">${name}</span>]: the name goes
    into the markup as it is, unescaped. *)
Definition chipMarkup (name : string) : string :=
  "<span class=" +:+ Js.quote +:+ "chip-text" +:+ Js.quote +:+ ">"
    +:+ name +:+ "</span>".

(** The chip [displayCategoryChips] creates for a category. *)
Definition mkChip (category : RawCategory) : Chip :=
  {| categoryId := category_id category;
     categoryName := category_name category;
     contentType := contentTypeOf category;
     innerHTML := chipMarkup (category_name category);
     selected := false |}.

(** A [button.btn-section-select-all] with its [data-section] and label. *)
Record SectionButton := { section : string; textContent : string }.

(** Content of the [#results] pane. *)
Inductive Alert :=
| AlertError (message : string)
| AlertSuccess (message : string).

(** The credential form of step 1 and the radio group of step 2.
    [filterMode] is the value of the checked [filterMode] radio. *)
Record Form := {
  url : string;
  username : string;
  password : string;
  includeVod : bool;
  filterMode : string
}.

(** [#finalDownloadLink]: [href] is [Some u] when it is the object URL
    [blob:u], [None] when it is no [blob:] URL. *)
Record DownloadLink := { href : option nat; displayed : bool }.

(** Script variables, document and the browser's object-URL store.
    [objectUrls] are the object URLs created and not yet revoked,
    [nextObjectUrl] is the one [createObjectURL] hands out next.  Left out,
    being written but never read by any handler: the loading indicator,
    the button captions of step 1, the confirmation modal and the text of
    the selection counter. *)
Record Page := {
  form : Form;
  categories : list RawCategory;
  currentStep : nat;
  activeStep : option nat;
  chips : list Chip;
  sectionButtons : list SectionButton;
  results : option Alert;
  downloadLink : DownloadLink;
  objectUrls : list nat;
  nextObjectUrl : nat
}.

Definition setForm (v : Form) (p : Page) : Page :=
  {| form := v; categories := categories p; currentStep := currentStep p;
     activeStep := activeStep p; chips := chips p;
     sectionButtons := sectionButtons p; results := results p;
     downloadLink := downloadLink p; objectUrls := objectUrls p;
     nextObjectUrl := nextObjectUrl p |}.

Definition setCategories (v : list RawCategory) (p : Page) : Page :=
  {| form := form p; categories := v; currentStep := currentStep p;
     activeStep := activeStep p; chips := chips p;
     sectionButtons := sectionButtons p; results := results p;
     downloadLink := downloadLink p; objectUrls := objectUrls p;
     nextObjectUrl := nextObjectUrl p |}.

Definition setChips (v : list Chip) (p : Page) : Page :=
  {| form := form p; categories := categories p; currentStep := currentStep p;
     activeStep := activeStep p; chips := v;
     sectionButtons := sectionButtons p; results := results p;
     downloadLink := downloadLink p; objectUrls := objectUrls p;
     nextObjectUrl := nextObjectUrl p |}.

Definition setSectionButtons (v : list SectionButton) (p : Page) : Page :=
  {| form := form p; categories := categories p; currentStep := currentStep p;
     activeStep := activeStep p; chips := chips p;
     sectionButtons := v; results := results p;
     downloadLink := downloadLink p; objectUrls := objectUrls p;
     nextObjectUrl := nextObjectUrl p |}.

Definition setResults (v : option Alert) (p : Page) : Page :=
  {| form := form p; categories := categories p; currentStep := currentStep p;
     activeStep := activeStep p; chips := chips p;
     sectionButtons := sectionButtons p; results := v;
     downloadLink := downloadLink p; objectUrls := objectUrls p;
     nextObjectUrl := nextObjectUrl p |}.

Definition setDownloadLink (v : DownloadLink) (p : Page) : Page :=
  {| form := form p; categories := categories p; currentStep := currentStep p;
     activeStep := activeStep p; chips := chips p;
     sectionButtons := sectionButtons p; results := results p;
     downloadLink := v; objectUrls := objectUrls p;
     nextObjectUrl := nextObjectUrl p |}.

Definition setObjectUrls (v : list nat) (next : nat) (p : Page) : Page :=
  {| form := form p; categories := categories p; currentStep := currentStep p;
     activeStep := activeStep p; chips := chips p;
     sectionButtons := sectionButtons p; results := results p;
     downloadLink := downloadLink p; objectUrls := v;
     nextObjectUrl := next |}.

(** *** Flow management *)

Definition hideAllSteps (p : Page) : Page :=
  {| form := form p; categories := categories p; currentStep := currentStep p;
     activeStep := None; chips := chips p;
     sectionButtons := sectionButtons p; results := results p;
     downloadLink := downloadLink p; objectUrls := objectUrls p;
     nextObjectUrl := nextObjectUrl p |}.

Definition showStep (stepNumber : nat) (p : Page) : Page :=
  let p := hideAllSteps p in
  {| form := form p; categories := categories p; currentStep := stepNumber;
     activeStep := Some stepNumber; chips := chips p;
     sectionButtons := sectionButtons p; results := results p;
     downloadLink := downloadLink p; objectUrls := objectUrls p;
     nextObjectUrl := nextObjectUrl p |}.

(** Puts an error alert with [message] into [#results].  The message goes
    in through [innerHTML], as written. *)
Definition showError (message : string) (p : Page) : Page :=
  setResults (Some (AlertError message)) p.

Definition clearResults (p : Page) : Page := setResults None p.

(** *** displayCategoryChips *)

Definition sections : list string := ["live"; "vod"; "series"].

(** [groupedCategories[section.key]] for the keys of [sections]. *)
Definition groupOf (g : Grouped) (key : string) : list RawCategory :=
  if decide (key = "live") then live g
  else if decide (key = "vod") then vod g
  else if decide (key = "series") then series g
  else [].

(** The header button of one section, when the section is rendered. *)
Definition sectionHeader (g : Grouped) (key : string) : list SectionButton :=
  match groupOf g key with
  | [] => []
  | _ :: _ => [ {| section := key; textContent := "Select All" |} ]
  end.

(** The chips of one section, in the order of the group. *)
Definition sectionChips (g : Grouped) (key : string) : list Chip :=
  map mkChip (groupOf g key).

(** Empties [#categoryChips], groups the categories, then appends per
    non-empty section its header and its chips, each chip with the markup
    of its name as its [innerHTML].  A throw inside the grouping loop
    leaves the container emptied.  [chips] are the chips the script
    created; they are all the [.category-chip] elements of the document
    only when no name holds markup ([Js.plainText]). *)
Definition displayCategoryChips (cats : list RawCategory) (p : Page) : Page * Js.Result unit :=
  let p := setSectionButtons [] (setChips [] p) in
  match groupCategories cats with
  | Js.Throw m => (p, Js.Throw m)
  | Js.Ok g =>
      (setSectionButtons (sections ≫= sectionHeader g)
         (setChips (sections ≫= sectionChips g) p),
       Js.Ok tt)
  end.

(** *** Selection *)

(** [chip.classList.toggle("selected")] on the chip at position [i] of the
    document; a position that holds no chip cannot be clicked and changes
    nothing. *)
Definition toggleChip (i : nat) (p : Page) : Page :=
  setChips (alter (fun chip => setSelected (negb (selected chip)) chip) i (chips p)) p.

(** [Array.from(chips).every(chip => chip.classList.contains("selected"))]. *)
Definition allSelected (l : list Chip) : bool := forallb selected l.

(** The [forEach] of both select-all handlers: with [wasAll] every chip
    loses the class, otherwise every chip gets it. *)
Definition setAll (wasAll : bool) (chip : Chip) : Chip :=
  if wasAll then setSelected false chip else setSelected true chip.

(** [document.querySelectorAll('[data-content-type="key"]')], on a
    document whose elements with that attribute are the chips in [l]. *)
Definition chipsOfSection (key : string) (l : list Chip) : list Chip :=
  filter (fun chip => contentType chip = key) l.

(** The chips after the click handler of the section button ran. *)
Definition toggleSection (key : string) (l : list Chip) : list Chip :=
  let wasAll := allSelected (chipsOfSection key l) in
  map (fun chip => if decide (contentType chip = key) then setAll wasAll chip else chip) l.

Definition relabel (key caption : string) (b : SectionButton) : SectionButton :=
  if decide (section b = key) then {| section := section b; textContent := caption |} else b.

(** Click on the "Select All" button of section [key]; without such a
    button in the document there is nothing to click. *)
Definition selectAllInSection (key : string) (p : Page) : Page :=
  if bool_decide (key ∈ map section (sectionButtons p)) then
    let wasAll := allSelected (chipsOfSection key (chips p)) in
    setSectionButtons
      (map (relabel key (if wasAll then "Select All" else "Clear All"))
         (sectionButtons p))
      (setChips (toggleSection key (chips p)) p)
  else p.

(** Ctrl/Cmd+A: the same toggle over every chip, in step 2 only. *)
Definition selectAllShortcut (p : Page) : Page :=
  if Nat.eqb (currentStep p) 2 then
    setChips (map (setAll (allSelected (chips p))) (chips p)) p
  else p.

Definition clearSelection (p : Page) : Page :=
  setSectionButtons
    (map (fun b => {| section := section b; textContent := "Select All" |})
       (sectionButtons p))
    (setChips (map (setSelected false) (chips p)) p).

(** [document.querySelectorAll(".category-chip.selected")], document
    order, on a document whose [.category-chip] elements are the chips of
    the page: none was parsed out of markup in a name, an alert or the
    confirmation summary. *)
Definition selectedChips (p : Page) : list Chip :=
  filter (fun chip => selected chip = true) (chips p).

Definition getSelectedCategories (p : Page) : list string :=
  map categoryName (selectedChips p).

(** ** The two requests and the wizard *)

(** Query of [/categories]: the trimmed credentials, and [include_vod]
    when the box is ticked. *)
Definition categoriesParams (f : Form) : Params.t :=
  let params :=
    [ ("url", Js.trim (url f)); ("username", Js.trim (username f));
      ("password", Js.trim (password f)) ] in
  if includeVod f then Params.append "include_vod" "true" params else params.

(** Query of [/m3u], from the form and the names of the selected chips. *)
Definition playlistParams (f : Form) (selectedCategories : list string) : Params.t :=
  let params :=
    [ ("url", Js.trim (url f)); ("username", Js.trim (username f));
      ("password", Js.trim (password f)); ("nostreamproxy", "true") ] in
  let params :=
    if includeVod f then Params.append "include_vod" "true" params else params in
  match selectedCategories with
  | [] => params
  | _ :: _ =>
      if decide (filterMode f = "include") then
        Params.append "wanted_groups" (Js.join "," selectedCategories) params
      else
        Params.append "unwanted_groups" (Js.join "," selectedCategories) params
  end.

(** What [await fetch("/categories?...")] and [await response.json()]
    deliver: a rejection (network failure, body that is no JSON), a
    non-2xx status with the optional [details] and [error] of its body, or
    the category array. *)
Inductive CategoriesReply :=
| CategoriesRejected (message : string)
| CategoriesNotOk (details error : option string)
| CategoriesOk (data : list RawCategory).

(** What [await fetch("/m3u?...")] delivers: a rejection, a non-2xx
    status with its body text, or the playlist blob. *)
Inductive PlaylistReply :=
| PlaylistRejected (message : string)
| PlaylistNotOk (errorText : string)
| PlaylistOk.

(** [data.details || data.error || "Failed to load categories"]. *)
Definition backendMessage (details error : option string) : string :=
  Js.orElse details (Js.orElse error "Failed to load categories").

(** The [try] block of [loadCategories] behind the [fetch]. *)
Definition receiveCategories (reply : CategoriesReply) (p : Page) : Page * Js.Result unit :=
  match reply with
  | CategoriesRejected m => (p, Js.Throw m)
  | CategoriesNotOk details error =>
      (p, Js.Throw (backendMessage details error))
  | CategoriesOk data =>
      match displayCategoryChips data (setCategories data p) with
      | (p, Js.Ok _) => (showStep 2 p, Js.Ok tt)
      | (p, Js.Throw m) => (p, Js.Throw m)
      end
  end.

(** [loadCategories]: the page afterwards and the requests it sent. *)
Definition loadCategories (reply : CategoriesReply) (p : Page) : Page * list Request :=
  let f := form p in
  if Js.falsy (Js.trim (url f)) || Js.falsy (Js.trim (username f))
     || Js.falsy (Js.trim (password f)) then
    (showError "Please fill in all required fields" p, [])
  else
    let p := clearResults (hideAllSteps p) in
    let request := {| endpoint := "/categories"; query := categoriesParams f |} in
    match receiveCategories reply p with
    | (p, Js.Ok _) => (p, [request])
    | (p, Js.Throw m) =>
        (showStep 1 (showError ("Failed to load categories: " +:+ m) p), [request])
    end.

(** [URL.createObjectURL]: a fresh URL, live until revoked. *)
Definition createObjectURL (p : Page) : nat * Page :=
  let u := nextObjectUrl p in
  (u, setObjectUrls (objectUrls p ++ [u]) (S u) p).

Definition revokeObjectURL (u : nat) (p : Page) : Page :=
  setObjectUrls (filter (fun v => v ≠ u) (objectUrls p)) (nextObjectUrl p) p.

(** The [try] block of [confirmGeneration] behind the [fetch]. *)
Definition receivePlaylist (reply : PlaylistReply) (p : Page) : Page * Js.Result unit :=
  match reply with
  | PlaylistRejected m => (p, Js.Throw m)
  | PlaylistNotOk errorText =>
      (p, Js.Throw (Js.orElse (Some errorText) "Failed to generate M3U playlist"))
  | PlaylistOk =>
      let (downloadUrl, p) := createObjectURL p in
      let p := setDownloadLink {| href := Some downloadUrl; displayed := true |} p in
      (showStep 3 p, Js.Ok tt)
  end.

(** [confirmGeneration]: the page afterwards and the requests it sent. *)
Definition confirmGeneration (reply : PlaylistReply) (p : Page) : Page * list Request :=
  let request :=
    {| endpoint := "/m3u";
       query := playlistParams (form p) (getSelectedCategories p) |} in
  let p := hideAllSteps p in
  match receivePlaylist reply p with
  | (p, Js.Ok _) => (p, [request])
  | (p, Js.Throw m) =>
      (showStep 2 (showError ("Failed to generate M3U: " +:+ m) p), [request])
  end.

Definition goBackToStep1 (p : Page) : Page := showStep 1 p.

Definition clearCredentials (f : Form) : Form :=
  {| url := ""; username := ""; password := "";
     includeVod := includeVod f; filterMode := filterMode f |}.

Definition startOver (p : Page) : Page :=
  let f := form p in
  let p :=
    setForm {| url := ""; username := ""; password := "";
               includeVod := false; filterMode := filterMode f |} p in
  let p := setCategories [] p in
  let p := setSectionButtons [] (setChips [] p) in
  let p :=
    match href (downloadLink p) with
    | Some u => revokeObjectURL u p
    | None => p
    end in
  let p := setDownloadLink {| href := href (downloadLink p); displayed := false |} p in
  showStep 1 (clearResults p).

Definition useOtherCredentials (p : Page) : Page :=
  showStep 1 (clearResults (setForm (clearCredentials (form p)) p)).

(** *** Sessions: the user's actions and the transport's replies *)

Inductive Event :=
| FillCredentials (url username password : string)
| CheckIncludeVod (checked : bool)
| ChooseFilterMode (value : string)
| LoadCategories (reply : CategoriesReply)
| ToggleChip (i : nat)
| SelectAllInSection (key : string)
| SelectAllShortcut
| ClearSelection
| ConfirmGeneration (reply : PlaylistReply)
| GoBackToStep1
| StartOver
| UseOtherCredentials.

Definition handle (e : Event) (p : Page) : Page :=
  match e with
  | FillCredentials u n w =>
      setForm {| url := u; username := n; password := w;
                 includeVod := includeVod (form p);
                 filterMode := filterMode (form p) |} p
  | CheckIncludeVod b =>
      setForm {| url := url (form p); username := username (form p);
                 password := password (form p); includeVod := b;
                 filterMode := filterMode (form p) |} p
  | ChooseFilterMode v =>
      setForm {| url := url (form p); username := username (form p);
                 password := password (form p);
                 includeVod := includeVod (form p); filterMode := v |} p
  | LoadCategories reply => fst (loadCategories reply p)
  | ToggleChip i => toggleChip i p
  | SelectAllInSection key => selectAllInSection key p
  | SelectAllShortcut => selectAllShortcut p
  | ClearSelection => clearSelection p
  | ConfirmGeneration reply => fst (confirmGeneration reply p)
  | GoBackToStep1 => goBackToStep1 p
  | StartOver => startOver p
  | UseOtherCredentials => useOtherCredentials p
  end.

Definition run (events : list Event) (p : Page) : Page :=
  fold_left (fun p e => handle e p) events p.

(** Modelled from the spec: the markup of the page ([index.html]) is not
    among the sources.  The page as first loaded: step 1 shown, nothing
    fetched, empty inputs, the [exclude] radio checked. *)
Definition initialPage : Page :=
  {| form := {| url := ""; username := ""; password := "";
                includeVod := false; filterMode := "exclude" |};
     categories := []; currentStep := 1; activeStep := Some 1;
     chips := []; sectionButtons := []; results := None;
     downloadLink := {| href := None; displayed := false |};
     objectUrls := []; nextObjectUrl := 0 |}.

(** ** Displays derived from the page *)

(** The [contentTypeCounts] object of [updateSelectionCounter]. *)
Record TypeCounts := { liveCount : nat; vodCount : nat; seriesCount : nat }.

(** Body of its [selectedChips.forEach]: the count of the chip's content
    type goes up by one when the object owns that key. *)
Definition countChip (counts : TypeCounts) (chip : Chip) : TypeCounts :=
  let contentType := Js.orElse (Some (contentType chip)) "live" in
  if decide (contentType = "live") then
    {| liveCount := S (liveCount counts); vodCount := vodCount counts;
       seriesCount := seriesCount counts |}
  else if decide (contentType = "vod") then
    {| liveCount := liveCount counts; vodCount := S (vodCount counts);
       seriesCount := seriesCount counts |}
  else if decide (contentType = "series") then
    {| liveCount := liveCount counts; vodCount := vodCount counts;
       seriesCount := S (seriesCount counts) |}
  else counts.

Definition contentTypeCounts (l : list Chip) : TypeCounts :=
  fold_left countChip l {| liveCount := 0; vodCount := 0; seriesCount := 0 |}.

(** The [parts] array: one entry per content type with a positive count. *)
Definition breakdownParts (counts : TypeCounts) : list string :=
  (if Nat.ltb 0 (liveCount counts)
   then [pretty (liveCount counts) +:+ " Live TV"] else [])
  ++ (if Nat.ltb 0 (vodCount counts)
      then [pretty (vodCount counts) +:+ " Movies/VOD"] else [])
  ++ (if Nat.ltb 0 (seriesCount counts)
      then [pretty (seriesCount counts) +:+ " TV Shows"] else []).

(** What [updateSelectionCounter] writes: the text of [#selectionText] and
    whether [#selectionCounter] carries the class [has-selection]. *)
Record Counter := { selectionText : string; hasSelection : bool }.

Definition updateSelectionCounter (p : Page) : Counter :=
  let selectedCount := length (selectedChips p) in
  if Nat.eqb selectedCount 0 then
    {| selectionText :=
         "Click categories to select them (or leave empty to include all)";
       hasSelection := false |}
  else
    let action :=
      if decide (filterMode (form p) = "include") then "included" else "excluded" in
    let parts := breakdownParts (contentTypeCounts (selectedChips p)) in
    let breakdown :=
      match parts with
      | [] => ""
      | _ :: _ => " (" +:+ Js.join ", " parts +:+ ")"
      end in
    {| selectionText :=
         pretty selectedCount +:+ " categories will be " +:+ action +:+ breakdown;
       hasSelection := true |}.

(** The rows [showConfirmation] writes into [#modalSummary], each a label
    and the string interpolated as its value.  The rows go into the
    document through [innerHTML]: a value is shown as written only if it
    is its own text ([Js.literalText]); otherwise the page shows what the
    parser makes of it. *)
Definition showConfirmation (p : Page) : list (string * string) :=
  let selectedCategories := getSelectedCategories p in
  let f := form p in
  let categoryText :=
    match selectedCategories with
    | [] => "All " +:+ pretty (length (categories p)) +:+ " categories"
    | _ :: _ =>
        let action :=
          if decide (filterMode f = "include") then "Include" else "Exclude" in
        action +:+ " " +:+ pretty (length selectedCategories)
          +:+ " selected categories"
    end in
  let contentType :=
    if includeVod f then "Live TV + VOD/Movies/Shows" else "Live TV only" in
  [ ("Service URL:", Js.trim (url f));
    ("Username:", Js.trim (username f));
    ("Content Type:", contentType);
    ("Filter Mode:", categoryText);
    ("Total Categories:", pretty (length (categories p))) ].

(** The credential inputs the blur listener of [setupInputTrimming] is
    attached to. *)
Inductive Input := UrlInput | UsernameInput | PasswordInput.

(** [this.value = this.value.trim()] when the input loses focus. *)
Definition blur (input : Input) (p : Page) : Page :=
  let f := form p in
  match input with
  | UrlInput =>
      setForm {| url := Js.trim (url f); username := username f;
                 password := password f; includeVod := includeVod f;
                 filterMode := filterMode f |} p
  | UsernameInput =>
      setForm {| url := url f; username := Js.trim (username f);
                 password := password f; includeVod := includeVod f;
                 filterMode := filterMode f |} p
  | PasswordInput =>
      setForm {| url := url f; username := username f;
                 password := Js.trim (password f); includeVod := includeVod f;
                 filterMode := filterMode f |} p
  end.

(** *** Keyboard shortcuts *)

(** The fields of a [keydown] event the handler reads. *)
Record KeyDown := { key : string; ctrlKey : bool; metaKey : bool }.

(** What a handler does to the confirmation modal. *)
Inductive ModalChange :=
| ModalUntouched
| ModalClosed
| ModalOpened (rows : list (string * string)).

(** Outcome of the [keydown] listener: the page, the requests sent, the
    modal, and whether [preventDefault] was called. *)
Record KeyOutcome := {
  pageAfter : Page;
  sent : list Request;
  modal : ModalChange;
  defaultPrevented : bool
}.

(** The [keydown] listener; [reply] answers the fetch of a
    [loadCategories] it may start. *)
Definition keydown (reply : CategoriesReply) (e : KeyDown) (p : Page) : KeyOutcome :=
  if decide (key e = "Escape") then
    {| pageAfter := p; sent := []; modal := ModalClosed; defaultPrevented := false |}
  else if ctrlKey e || metaKey e then
    if decide (key e = "Enter") then
      if Nat.eqb (currentStep p) 1 then
        {| pageAfter := fst (loadCategories reply p);
           sent := snd (loadCategories reply p);
           modal := ModalUntouched; defaultPrevented := true |}
      else if Nat.eqb (currentStep p) 2 then
        {| pageAfter := p; sent := [];
           modal := ModalOpened (showConfirmation p); defaultPrevented := true |}
      else
        {| pageAfter := p; sent := []; modal := ModalUntouched;
           defaultPrevented := true |}
    else if decide (key e = "a") then
      {| pageAfter := selectAllShortcut p; sent := []; modal := ModalUntouched;
         defaultPrevented := true |}
    else
      {| pageAfter := p; sent := []; modal := ModalUntouched;
         defaultPrevented := false |}
  else
    {| pageAfter := p; sent := []; modal := ModalUntouched;
       defaultPrevented := false |}.

(** * Vocabulary of the properties and sample sessions *)

(** The records whose content type, defaulted, is [key], in input order. *)
Definition ofType (key : string) (cats : list RawCategory) : list RawCategory :=
  filter (fun c => contentTypeOf c = key) cats.

(** The grouping loop can finish: no record names a property that the
    grouping object merely inherits. *)
Definition groupable (cats : list RawCategory) : Prop :=
  Forall (fun c => contentTypeOf c ∉ objectPrototypeKeys) cats.

(** The content type of [c], defaulted, is one of the three section keys. *)
Definition known (c : RawCategory) : Prop := contentTypeOf c ∈ sections.

(** Sample records. *)
Definition radio : RawCategory :=
  {| category_id := "7"; category_name := "Radio 1";
     content_type := Some "radio" |}.

Definition bbc : RawCategory :=
  {| category_id := "10"; category_name := "BBC"; content_type := Some "live" |}.

Definition movieX : RawCategory :=
  {| category_id := "20"; category_name := "Movie X"; content_type := Some "vod" |}.

Definition kids : RawCategory :=
  {| category_id := "30"; category_name := "Kids"; content_type := None |}.

Definition news : RawCategory :=
  {| category_id := "1"; category_name := "News"; content_type := None |}.

Definition sports : RawCategory :=
  {| category_id := "2"; category_name := "Sports"; content_type := None |}.

(** A session that fetched [news] and [sports], picked a filter mode and
    selected both chips, the second one first. *)
Definition newsAndSports (mode : string) (vodToo : bool) : Page :=
  run [ FillCredentials "http://tv.example" " alice" "secret";
        CheckIncludeVod vodToo;
        LoadCategories (CategoriesOk [news; sports]);
        ChooseFilterMode mode;
        ToggleChip 1; ToggleChip 0 ]
    initialPage.

(** Every chip of section [key] carries the [selected] class. *)
Definition sectionFullySelected (key : string) (p : Page) : Prop :=
  Forall (fun chip => selected chip = true) (chipsOfSection key (chips p)).

(** No chip of section [key] carries it. *)
Definition sectionUnselected (key : string) (p : Page) : Prop :=
  Forall (fun chip => selected chip = false) (chipsOfSection key (chips p)).

(** The chips of the other sections. *)
Definition chipsOutside (key : string) (p : Page) : list Chip :=
  filter (fun chip => contentType chip ≠ key) (chips p).

(** The chips with their [selected] class taken off. *)
Definition unselected (l : list Chip) : list Chip := map (setSelected false) l.

(** The categories in the order their chips are laid out. *)
Definition displayOrder (cats : list RawCategory) : list RawCategory :=
  ofType "live" cats ++ ofType "vod" cats ++ ofType "series" cats.

(** The elements of [l] at the positions flagged [true]. *)
Fixpoint pick {A} (flags : list bool) (l : list A) : list A :=
  match flags, l with
  | b :: flags', x :: l' => if b then x :: pick flags' l' else pick flags' l'
  | _, _ => []
  end.

(** Events of step 2 that only move the [selected] class around. *)
Definition selectionEvent (e : Event) : Prop :=
  match e with
  | ToggleChip _ | SelectAllInSection _ | SelectAllShortcut
  | ClearSelection | ChooseFilterMode _ => True
  | _ => False
  end.

(** All three credentials are non-empty once trimmed. *)
Definition credentialsFilled (f : Form) : Prop :=
  Js.trim (url f) ≠ "" ∧ Js.trim (username f) ≠ "" ∧ Js.trim (password f) ≠ "".

(** A category reply with one live and one vod record. *)
Definition tvCategories : list RawCategory := [bbc; movieX].

(** Generate a playlist, go back with "use other credentials", fetch
    and generate again. *)
Definition twoGenerations : list Event :=
  [ FillCredentials "http://tv.example" "alice" "secret";
    LoadCategories (CategoriesOk tvCategories);
    ToggleChip 0;
    ConfirmGeneration PlaylistOk;
    UseOtherCredentials;
    FillCredentials "http://tv.example" "bob" "hunter2";
    LoadCategories (CategoriesOk tvCategories);
    ConfirmGeneration PlaylistOk ].

(** The chips are those of the fetched categories of known type, in
    display order, or there are none. *)
Definition laidOut (p : Page) : Prop :=
  chips p = [] ∨ unselected (chips p) = map mkChip (displayOrder (categories p)).

(** The object-URL store and the download link agree: live URLs are
    distinct and were handed out before, and a link that is shown points
    to a live one. *)
Definition urlsConsistent (p : Page) : Prop :=
  NoDup (objectUrls p)
  ∧ Forall (fun u => u < nextObjectUrl p) (objectUrls p)
  ∧ (∀ u, href (downloadLink p) = Some u → u < nextObjectUrl p)
  ∧ (displayed (downloadLink p) = true →
     ∃ u, href (downloadLink p) = Some u ∧ u ∈ objectUrls p).

(** The values of the rows of the confirmation summary labelled [label]. *)
Definition summaryRow (label : string) (rows : list (string * string)) : list string :=
  map snd (filter (fun row => fst row = label) rows).

(** The hint the selection counter shows while nothing is selected. *)
Definition selectionHint : string :=
  "Click categories to select them (or leave empty to include all)".

(** How often position [i] occurs in a list of clicked positions. *)
Definition clicks (i : nat) (xs : list nat) : nat :=
  length (filter (fun j => j = i) xs).

(** No category name holds markup. *)
Definition plainNames (cats : list RawCategory) : Prop :=
  Forall (fun c => Js.plainText (category_name c) = true) cats.

(** An optional string holds no markup. *)
Definition plainOption (o : option string) : Prop :=
  match o with
  | Some s => Js.plainText s = true
  | None => True
  end.

(** The strings the event brings into the page and that reach an
    [innerHTML] sink (chip, alert, confirmation summary) hold no markup. *)
Definition plainEvent (e : Event) : Prop :=
  match e with
  | FillCredentials u n _ => Js.plainText u = true ∧ Js.plainText n = true
  | LoadCategories (CategoriesOk data) => plainNames data
  | LoadCategories (CategoriesNotOk details error) =>
      plainOption details ∧ plainOption error
  | LoadCategories (CategoriesRejected m) => Js.plainText m = true
  | ConfirmGeneration (PlaylistRejected m) => Js.plainText m = true
  | ConfirmGeneration (PlaylistNotOk text) => Js.plainText text = true
  | _ => True
  end.

(** Every event of the session is plain in that sense. *)
Definition plainSession (events : list Event) : Prop := Forall plainEvent events.

(** Whether the handler of [e], started on [p], gets to its call of
    [updateSelectionCounter]: the chip and button clicks, "clear
    selection", a change of the filter mode, Ctrl/Cmd+A in step 2, and a
    fetch whose reply is laid out without a throw. *)
Definition refreshesCounter (e : Event) (p : Page) : bool :=
  match e with
  | ToggleChip i => bool_decide (i < length (chips p))
  | SelectAllInSection key => bool_decide (key ∈ map section (sectionButtons p))
  | SelectAllShortcut => Nat.eqb (currentStep p) 2
  | ClearSelection => true
  | ChooseFilterMode _ => true
  | LoadCategories (CategoriesOk data) =>
      negb (Js.falsy (Js.trim (url (form p)))
            || Js.falsy (Js.trim (username (form p)))
            || Js.falsy (Js.trim (password (form p))))
      && match groupCategories data with
         | Js.Ok _ => true
         | Js.Throw _ => false
         end
  | _ => false
  end.

(** The selection counter after the handler of [e]: written anew when the
    handler calls [updateSelectionCounter], left as shown otherwise. *)
Definition handleCounter (e : Event) (p : Page) (shown : Counter) : Counter :=
  if refreshesCounter e p then updateSelectionCounter (handle e p) else shown.

(** The selection counter at the end of a session that started on [p]
    with the counter showing [shown]. *)
Fixpoint runCounter (events : list Event) (p : Page) (shown : Counter) : Counter :=
  match events with
  | [] => shown
  | e :: rest => runCounter rest (handle e p) (handleCounter e p shown)
  end.

(** A name that closes the chip's [span] and opens an element of its own
    with the classes of a selected chip. *)
Definition ghostName : string :=
  "Sport</span><div class=" +:+ Js.quote +:+ "category-chip selected"
    +:+ Js.quote +:+ " data-category-name=" +:+ Js.quote +:+ "Ghost"
    +:+ Js.quote +:+ "></div><span>".

(** A live category of that name. *)
Definition ghostCategory : RawCategory :=
  {| category_id := "5"; category_name := ghostName; content_type := Some "live" |}.

(** * Properties *)

(** ** Trimming *)
Section Trimming.

Lemma stripPrefix_length t s r :
  Js.stripPrefix t s = Some r →
  String.length s = (String.length t + String.length r)%nat.
Proof.
  revert s. induction t as [| a t IH]; intros s Hs; simpl in *.
  - by injection Hs as ->.
  - destruct s as [| b s]; [done |].
    destruct (Ascii.eqb a b); [| done]. simpl. by rewrite (IH s Hs).
Qed.

Lemma firstSome_elem {A B} (f : A → option B) l y :
  Js.firstSome f l = Some y → ∃ x, x ∈ l ∧ f x = Some y.
Proof.
  induction l as [| x l IH]; [done |]. simpl.
  destruct (f x) as [z |] eqn:E.
  - intros [= ->]. exists x. split; [constructor | done].
  - intros Hl. destruct (IH Hl) as (x' & Hin & Hx').
    exists x'. split; [by constructor | done].
Qed.

Lemma dropWhiteSpace_shorter s r :
  Js.dropWhiteSpace s = Some r → (String.length r < String.length s)%nat.
Proof.
  intros Hd. apply firstSome_elem in Hd as (t & Hin & Ht).
  apply stripPrefix_length in Ht.
  assert (Hpos : Forall (fun t => (0 < String.length t)%nat) Js.whiteSpace).
  { unfold Js.whiteSpace. simpl. repeat (constructor; [simpl; lia |]). constructor. }
  rewrite Forall_forall in Hpos. specialize (Hpos t Hin). lia.
Qed.

(** The fuel of [trimStart] never runs out: what it returns starts with
    no white space. *)
Lemma trimStart_done s : Js.dropWhiteSpace (Js.trimStart s) = None.
Proof.
  unfold Js.trimStart.
  assert (Hfuel : ∀ (n : nat) s, (String.length s ≤ n)%nat →
                         Js.dropWhiteSpace (Js.trimStartN n s) = None).
  { clear s. induction n as [| n IH]; intros s Hlen; simpl.
    - by destruct s; [| simpl in Hlen; lia].
    - destruct (Js.dropWhiteSpace s) as [r |] eqn:E; [| done].
      apply IH. apply dropWhiteSpace_shorter in E. lia. }
  by apply Hfuel.
Qed.

Example trim_ascii : Js.trim "  http://tv.example  " = "http://tv.example".
Proof. reflexivity. Qed.

Example trim_no_break_space :
  Js.trim (Js.bytes [194%N; 160%N; 9%N] +:+ "a b" +:+ Js.bytes [226%N; 128%N; 168%N; 10%N])
  = "a b".
Proof. reflexivity. Qed.

Example trim_blank : Js.trim (Js.bytes [32%N; 227%N; 128%N; 128%N; 13%N]) = "".
Proof. reflexivity. Qed.

End Trimming.

(** ** Grouping *)
Section Grouping.

Implicit Types (c : RawCategory) (cats : list RawCategory) (g : Grouped).

Lemma sections_not_inherited key :
  key ∈ sections → key ∉ objectPrototypeKeys.
Proof.
  unfold sections. intros Hk.
  repeat (apply elem_of_cons in Hk as [-> | Hk];
          [ by apply (bool_decide_eq_false_1 _); vm_compute | ]).
  by apply elem_of_nil in Hk.
Qed.

Lemma pushCategory_ok g c :
  contentTypeOf c ∉ objectPrototypeKeys →
  pushCategory g c =
    Js.Ok {| live := live g ++ ofType "live" [c];
             vod := vod g ++ ofType "vod" [c];
             series := series g ++ ofType "series" [c] |}.
Proof.
  intros Hc. unfold pushCategory, ofType.
  rewrite !filter_cons, !filter_nil.
  repeat case_decide; try congruence; rewrite ?app_nil_r; try done.
  rewrite bool_decide_eq_false_2 by done. by destruct g.
Qed.

Lemma forEach_pushCategory cats g :
  groupable cats →
  Js.forEach pushCategory cats g =
    Js.Ok {| live := live g ++ ofType "live" cats;
             vod := vod g ++ ofType "vod" cats;
             series := series g ++ ofType "series" cats |}.
Proof.
  intros Hcats. revert g.
  induction Hcats as [| c cats Hc _ IH]; intros g; simpl.
  - unfold ofType. rewrite !filter_nil, !app_nil_r. by destruct g.
  - rewrite pushCategory_ok by done. simpl. rewrite IH. simpl.
    f_equal. unfold ofType.
    rewrite (filter_cons _ c cats), !filter_cons, !filter_nil.
    repeat case_decide; simpl; rewrite <- ?app_assoc; simpl; f_equal.
Qed.

Lemma groupCategories_ok cats :
  groupable cats →
  groupCategories cats =
    Js.Ok {| live := ofType "live" cats; vod := ofType "vod" cats;
             series := ofType "series" cats |}.
Proof.
  intros Hcats. unfold groupCategories.
  by rewrite forEach_pushCategory.
Qed.

Lemma known_iff c :
  known c ↔
  contentTypeOf c = "live" ∨ contentTypeOf c = "vod" ∨ contentTypeOf c = "series".
Proof.
  unfold known, sections. rewrite !elem_of_cons, elem_of_nil. tauto.
Qed.

(** The three filters split the records of known type. *)
Lemma ofType_partition cats :
  ofType "live" cats ++ ofType "vod" cats ++ ofType "series" cats
    ≡ₚ filter known cats.
Proof.
  induction cats as [| c cats IH]; [done |].
  unfold ofType in *. rewrite !filter_cons.
  destruct (decide (known c)) as [Hk | Hk].
  - apply known_iff in Hk as [E | [E | E]];
      repeat case_decide; try congruence; simpl.
    + by rewrite IH.
    + rewrite <- Permutation_middle. by rewrite IH.
    + rewrite app_assoc, <- Permutation_middle, <- app_assoc. by rewrite IH.
  - rewrite known_iff in Hk. repeat case_decide; tauto.
Qed.

Lemma filter_all {A} (P : A → Prop) `{!∀ x, Decision (P x)} (l : list A) :
  Forall P l → filter P l = l.
Proof.
  induction 1 as [| x l Hx _ IH]; [done |].
  by rewrite filter_cons_True, IH.
Qed.

Lemma ofType_elem key cats c :
  c ∈ ofType key cats ↔ contentTypeOf c = key ∧ c ∈ cats.
Proof. unfold ofType. by rewrite list_elem_of_filter. Qed.

Lemma absent_type_is_live c : content_type c = None → contentTypeOf c = "live".
Proof. unfold contentTypeOf. by intros ->. Qed.

(** C3, as stated, fails: a record whose [content_type] is none of the
    three section keys passes the guard of the grouping loop into no
    group at all, so the groups do not add up to the input. *)
Lemma grouping_drops_unknown_type :
  ∃ g, groupCategories [radio] = Js.Ok g
    ∧ (radio ∉ live g) ∧ (radio ∉ vod g) ∧ (radio ∉ series g)
    ∧ ¬ (live g ++ vod g ++ series g ≡ₚ [radio]).
Proof.
  exists emptyGroups. split; [by vm_compute |].
  simpl. repeat split; try apply not_elem_of_nil.
  intros H. by apply Permutation_nil_l in H.
Qed.

(** C3 (amended): on every category list free of inherited property
    names the grouping finishes; each group is the input filtered by its
    content type, hence in the original relative order; a record without
    [content_type] is in [live]; a record of known type is in exactly one
    group and a record of any other type in none; the three groups
    together are a rearrangement of the records of known type, and of the
    whole input when every type is known. *)
Theorem grouping_partitions_known_types cats :
  groupable cats →
  ∃ g, groupCategories cats = Js.Ok g
    ∧ live g = ofType "live" cats
    ∧ vod g = ofType "vod" cats
    ∧ series g = ofType "series" cats
    ∧ live g `sublist_of` cats ∧ vod g `sublist_of` cats
    ∧ series g `sublist_of` cats
    ∧ (∀ c, c ∈ cats → content_type c = None → c ∈ live g)
    ∧ (∀ c, c ∈ cats → known c →
         (c ∈ live g ∧ (c ∉ vod g) ∧ (c ∉ series g))
         ∨ ((c ∉ live g) ∧ c ∈ vod g ∧ (c ∉ series g))
         ∨ ((c ∉ live g) ∧ (c ∉ vod g) ∧ c ∈ series g))
    ∧ (∀ c, ¬ known c → (c ∉ live g) ∧ (c ∉ vod g) ∧ (c ∉ series g))
    ∧ live g ++ vod g ++ series g ≡ₚ filter known cats
    ∧ (Forall known cats → live g ++ vod g ++ series g ≡ₚ cats).
Proof.
  intros Hcats. eexists. split; [by apply groupCategories_ok |]. simpl.
  repeat split; try (unfold ofType; apply sublist_filter).
  - intros c Hin Hnone. apply ofType_elem. auto using absent_type_is_live.
  - intros c Hin Hk. apply known_iff in Hk. rewrite !ofType_elem.
    destruct Hk as [Hk | [Hk | Hk]]; rewrite Hk;
      [left | right; left | right; right];
      repeat split; try done; by intros [? _].
  - intros Hin. apply ofType_elem in Hin as [Hin _]. apply H, known_iff. auto.
  - intros Hin. apply ofType_elem in Hin as [Hin _]. apply H, known_iff. auto.
  - intros Hin. apply ofType_elem in Hin as [Hin _]. apply H, known_iff. auto.
  - apply ofType_partition.
  - intros Hall. rewrite ofType_partition. by rewrite filter_all.
Qed.

Lemma grouping_partitions_known_types_witness :
  groupable [movieX; bbc; kids]
  ∧ ∃ g, groupCategories [movieX; bbc; kids] = Js.Ok g
      ∧ live g = [bbc; kids] ∧ vod g = [movieX] ∧ series g = [].
Proof.
  assert (Hg : groupable [movieX; bbc; kids]).
  { repeat constructor; by apply (bool_decide_eq_false_1 _); vm_compute. }
  split; [exact Hg |].
  destruct (grouping_partitions_known_types [movieX; bbc; kids] Hg)
    as (g & Hok & Hl & Hv & Hs & _).
  exists g. rewrite Hl, Hv, Hs. by repeat split.
Defined.

End Grouping.

(** ** The queries of the two requests *)
Section Requests.

Implicit Types (p : Page) (f : Form) (q : Params.t).

Lemma confirmGeneration_request reply p :
  snd (confirmGeneration reply p) =
    [ {| endpoint := "/m3u";
         query := playlistParams (form p) (getSelectedCategories p) |} ].
Proof.
  unfold confirmGeneration.
  by destruct (receivePlaylist reply (hideAllSteps p)) as [? [[] | ?]].
Qed.

Lemma selection_empty_iff p : selectedChips p = [] ↔ getSelectedCategories p = [].
Proof.
  unfold getSelectedCategories. by destruct (selectedChips p).
Qed.

Ltac absent := apply (bool_decide_eq_false_1 _); reflexivity.

(** C1: the playlist request carries no group-filter key while no chip
    is selected; with a selection it carries [wanted_groups] once and no
    [unwanted_groups] in mode [include], and [unwanted_groups] once and
    no [wanted_groups] in any other mode ([exclude]). *)
Theorem playlist_filter_key_follows_mode reply p :
  let q := playlistParams (form p) (getSelectedCategories p) in
  snd (confirmGeneration reply p) = [ {| endpoint := "/m3u"; query := q |} ]
  ∧ (selectedChips p = [] →
       ("wanted_groups" ∉ Params.keys q) ∧ ("unwanted_groups" ∉ Params.keys q))
  ∧ (selectedChips p ≠ [] → filterMode (form p) = "include" →
       length (Params.getAll "wanted_groups" q) = 1
       ∧ ("unwanted_groups" ∉ Params.keys q))
  ∧ (selectedChips p ≠ [] → filterMode (form p) ≠ "include" →
       length (Params.getAll "unwanted_groups" q) = 1
       ∧ ("wanted_groups" ∉ Params.keys q)).
Proof.
  intros q. split; [apply confirmGeneration_request |].
  subst q. rewrite selection_empty_iff. unfold playlistParams.
  destruct (getSelectedCategories p) as [| name names];
    destruct (includeVod (form p)); repeat split; intros; try done;
    try case_decide; try done; try reflexivity; absent.
Qed.

Lemma playlist_filter_key_follows_mode_witness :
  let p := newsAndSports "include" false in
  let q := playlistParams (form p) (getSelectedCategories p) in
  selectedChips p ≠ [] ∧ filterMode (form p) = "include"
  ∧ length (Params.getAll "wanted_groups" q) = 1
  ∧ ("unwanted_groups" ∉ Params.keys q).
Proof.
  intros p q.
  assert (Hsel : selectedChips p ≠ []) by (by vm_compute).
  assert (Hmode : filterMode (form p) = "include") by reflexivity.
  destruct (playlist_filter_key_follows_mode PlaylistOk p) as (_ & _ & Hinc & _).
  split; [exact Hsel |]. split; [exact Hmode |]. exact (Hinc Hsel Hmode).
Defined.

(** C2: the value sent under [wanted_groups] or [unwanted_groups] is
    the names of the selected chips joined by commas.  With the fetched
    categories 1 (News) and 2 (Sports) both selected, mode [include]
    sends [wanted_groups=News,Sports] and no [unwanted_groups], mode
    [exclude] sends [unwanted_groups=News,Sports] and no
    [wanted_groups]. *)
Theorem filter_value_is_joined_names :
  (∀ reply p, selectedChips p ≠ [] →
     let q := playlistParams (form p) (getSelectedCategories p) in
     let names := Js.join "," (map categoryName (selectedChips p)) in
     snd (confirmGeneration reply p) = [ {| endpoint := "/m3u"; query := q |} ]
     ∧ (filterMode (form p) = "include" →
          Params.getAll "wanted_groups" q = [names])
     ∧ (filterMode (form p) ≠ "include" →
          Params.getAll "unwanted_groups" q = [names]))
  ∧ (∀ reply, ∃ q,
       snd (confirmGeneration reply (newsAndSports "include" false))
         = [ {| endpoint := "/m3u"; query := q |} ]
       ∧ map categoryId (selectedChips (newsAndSports "include" false)) = ["1"; "2"]
       ∧ Params.getAll "wanted_groups" q = ["News,Sports"]
       ∧ ("unwanted_groups" ∉ Params.keys q))
  ∧ (∀ reply, ∃ q,
       snd (confirmGeneration reply (newsAndSports "exclude" false))
         = [ {| endpoint := "/m3u"; query := q |} ]
       ∧ map categoryId (selectedChips (newsAndSports "exclude" false)) = ["1"; "2"]
       ∧ Params.getAll "unwanted_groups" q = ["News,Sports"]
       ∧ ("wanted_groups" ∉ Params.keys q)).
Proof.
  split; [| split].
  - intros reply p Hsel q names.
    split; [apply confirmGeneration_request |].
    subst q names. rewrite selection_empty_iff in Hsel.
    unfold playlistParams, getSelectedCategories in *.
    destruct (map categoryName (selectedChips p)) as [| name rest]; [done |].
    destruct (includeVod (form p)); split; intros Hmode;
      case_decide; try done; reflexivity.
  - intros reply. eexists. split; [apply confirmGeneration_request |].
    repeat split; try (by vm_compute). absent.
  - intros reply. eexists. split; [apply confirmGeneration_request |].
    repeat split; try (by vm_compute). absent.
Qed.

Lemma filter_value_is_joined_names_witness :
  let p := newsAndSports "exclude" true in
  selectedChips p ≠ [] ∧ filterMode (form p) ≠ "include"
  ∧ Params.getAll "unwanted_groups"
      (playlistParams (form p) (getSelectedCategories p)) = ["News,Sports"].
Proof.
  intros p.
  assert (Hsel : selectedChips p ≠ []) by (by vm_compute).
  assert (Hmode : filterMode (form p) ≠ "include") by (by vm_compute).
  split; [exact Hsel |]. split; [exact Hmode |].
  destruct filter_value_is_joined_names as [Hgen _].
  destruct (Hgen PlaylistOk p Hsel) as (_ & _ & Hexc).
  exact (Hexc Hmode).
Defined.

End Requests.

(** ** Selecting chips *)
Section Selection.

Implicit Types (p : Page) (l : list Chip) (chip : Chip) (key : string).

Lemma allSelected_true l :
  allSelected l = true ↔ Forall (fun chip => selected chip = true) l.
Proof.
  unfold allSelected. induction l as [| chip l IH]; simpl.
  - split; [constructor | done].
  - rewrite andb_true_iff, Forall_cons. by rewrite IH.
Qed.

Lemma setSelected_same chip : setSelected (selected chip) chip = chip.
Proof. by destruct chip. Qed.

Lemma setSelected_twice a b chip :
  setSelected a (setSelected b chip) = setSelected a chip.
Proof. done. Qed.

Lemma filter_map_chips (P : Chip → Prop) `{!∀ c, Decision (P c)} (f : Chip → Chip) l :
  (∀ chip, P (f chip) ↔ P chip) →
  filter P (map f l) = map f (filter P l).
Proof.
  intros Hf. induction l as [| chip l IH]; [done |]. simpl.
  rewrite !filter_cons. destruct (decide (P chip)) as [Hc | Hc].
  - rewrite decide_True by (by apply Hf). simpl. by rewrite IH.
  - rewrite decide_False by (by rewrite Hf). exact IH.
Qed.

(** One click, seen on the chips of the section and on the others. *)
Lemma toggleSection_inside key l :
  chipsOfSection key (toggleSection key l) =
    map (setAll (allSelected (chipsOfSection key l))) (chipsOfSection key l).
Proof.
  unfold toggleSection, chipsOfSection.
  rewrite filter_map_chips.
  - generalize (allSelected (filter (fun chip => contentType chip = key) l)).
    intros b. induction l as [| chip l IH]; [done |].
    rewrite !filter_cons. case_decide; simpl; [| exact IH].
    rewrite decide_True by done. by rewrite IH.
  - intros chip. case_decide; [| done]. unfold setAll. by case allSelected.
Qed.

Lemma toggleSection_outside key l :
  filter (fun chip => contentType chip ≠ key) (toggleSection key l) =
    filter (fun chip => contentType chip ≠ key) l.
Proof.
  unfold toggleSection.
  generalize (allSelected (chipsOfSection key l)). intros b.
  induction l as [| chip l IH]; [done |]. simpl.
  rewrite !filter_cons.
  destruct (decide (contentType chip = key)) as [Hc | Hc].
  - rewrite !decide_False; [exact IH | by intros [] | ].
    unfold setAll. destruct b; simpl; by intros [].
  - rewrite !decide_True by done. by rewrite IH.
Qed.

Lemma toggleSection_unselected key l :
  unselected (toggleSection key l) = unselected l.
Proof.
  unfold unselected, toggleSection. rewrite map_map. apply map_ext.
  intros chip. case_decide; [| done]. unfold setAll. by case allSelected.
Qed.

Lemma setAll_selected b l :
  Forall (fun chip => selected chip = negb b) (map (setAll b) l).
Proof.
  apply Forall_forall. intros chip Hin.
  apply list_elem_of_fmap in Hin as (c & -> & _). by destruct b.
Qed.

Lemma selectAllInSection_chips key p :
  key ∈ map section (sectionButtons p) →
  chips (selectAllInSection key p) = toggleSection key (chips p).
Proof.
  intros Hb. unfold selectAllInSection. by rewrite bool_decide_eq_true_2.
Qed.

Lemma selectAllInSection_buttons key p :
  map section (sectionButtons (selectAllInSection key p)) =
    map section (sectionButtons p).
Proof.
  unfold selectAllInSection. case_bool_decide; [| done]. simpl.
  rewrite map_map. apply map_ext. intros b. unfold relabel. by case_decide.
Qed.

Lemma toggleSection_from_partial key l :
  allSelected (chipsOfSection key l) = false →
  Forall (fun chip => selected chip = true) (chipsOfSection key (toggleSection key l)).
Proof.
  intros Hpart. rewrite toggleSection_inside, Hpart.
  apply (setAll_selected false).
Qed.

Lemma toggleSection_from_full key l :
  allSelected (chipsOfSection key l) = true →
  Forall (fun chip => selected chip = false) (chipsOfSection key (toggleSection key l)).
Proof.
  intros Hfull. rewrite toggleSection_inside, Hfull.
  apply (setAll_selected true).
Qed.

Lemma not_fully_selected key l :
  ¬ Forall (fun chip => selected chip = true) (chipsOfSection key l) →
  allSelected (chipsOfSection key l) = false.
Proof.
  intros Hn. destruct (allSelected _) eqn:E; [| done].
  by apply allSelected_true in E.
Qed.

(** Two clicks on a section none of whose chips is selected give back
    the very same chips. *)
Lemma toggleSection_twice_untouched key l :
  Forall (fun chip => selected chip = false) (chipsOfSection key l) →
  toggleSection key (toggleSection key l) = l.
Proof.
  intros Hun.
  unfold toggleSection at 1. rewrite toggleSection_inside.
  unfold toggleSection.
  destruct (allSelected (chipsOfSection key l)) eqn:E.
  - (* nothing to select: both clicks clear chips that are clear *)
    assert (Hsame : map (setAll true) (chipsOfSection key l) = chipsOfSection key l).
    { clear E. induction Hun as [| chip r Hc _ IH]; [done |]. simpl.
      rewrite IH. f_equal. rewrite <- Hc. apply setSelected_same. }
    rewrite Hsame, E, map_map.
    rewrite <- (map_id l) at 2. apply map_ext_Forall, Forall_forall.
    intros chip Hin.
    destruct (decide (contentType chip = key)) as [Hk | Hk];
      [| by rewrite decide_False].
    rewrite decide_True by done. simpl.
    assert (Hc : selected chip = false).
    { rewrite Forall_forall in Hun. apply Hun.
      unfold chipsOfSection. by apply list_elem_of_filter. }
    destruct chip; simpl in *. by rewrite Hc.
  - assert (Hall : allSelected (map (setAll false) (chipsOfSection key l)) = true).
    { apply allSelected_true. apply (setAll_selected false). }
    rewrite Hall, map_map.
    rewrite <- (map_id l) at 2. apply map_ext_Forall, Forall_forall.
    intros chip Hin.
    destruct (decide (contentType chip = key)) as [Hk | Hk];
      [| by rewrite decide_False].
    rewrite decide_True by done. simpl.
    assert (Hc : selected chip = false).
    { rewrite Forall_forall in Hun. apply Hun.
      unfold chipsOfSection. by apply list_elem_of_filter. }
    destruct chip; simpl in *. by rewrite Hc.
Qed.

(** C5: a click on the select-all button of a section decides by the
    chips as they are now, whatever the caption of the button says:
    with every chip of the section selected it clears them all,
    otherwise it selects them all; chips of other sections keep their
    state and no chip is added or removed.  Hence a second click on a
    section that was not fully selected leaves none of its chips
    selected, and two clicks on an untouched section give back the chips
    exactly as they were. *)
Theorem selectAllInSection_all_or_nothing key p :
  key ∈ map section (sectionButtons p) →
  let p1 := selectAllInSection key p in
  let p2 := selectAllInSection key p1 in
  (sectionFullySelected key p → sectionUnselected key p1)
  ∧ (¬ sectionFullySelected key p → sectionFullySelected key p1)
  ∧ chipsOutside key p1 = chipsOutside key p
  ∧ unselected (chips p1) = unselected (chips p)
  ∧ (∀ buttons, key ∈ map section buttons →
       chips (selectAllInSection key (setSectionButtons buttons p)) = chips p1)
  ∧ (¬ sectionFullySelected key p → sectionUnselected key p2)
  ∧ (sectionUnselected key p → chips p2 = chips p).
Proof.
  intros Hb p1 p2.
  assert (Hb1 : key ∈ map section (sectionButtons p1)).
  { subst p1. by rewrite selectAllInSection_buttons. }
  assert (H1 : chips p1 = toggleSection key (chips p)).
  { by apply selectAllInSection_chips. }
  assert (H2 : chips p2 = toggleSection key (chips p1)).
  { by apply selectAllInSection_chips. }
  unfold sectionFullySelected, sectionUnselected, chipsOutside.
  rewrite H2, H1. repeat split.
  - intros Hfull. by apply toggleSection_from_full, allSelected_true.
  - intros Hpart. by apply toggleSection_from_partial, not_fully_selected.
  - apply toggleSection_outside.
  - apply toggleSection_unselected.
  - intros buttons Hbs. by rewrite selectAllInSection_chips.
  - intros Hpart. apply toggleSection_from_full, allSelected_true.
    by apply toggleSection_from_partial, not_fully_selected.
  - apply toggleSection_twice_untouched.
Qed.

Lemma selectAllInSection_all_or_nothing_witness :
  let p := run [ FillCredentials "http://tv.example" "alice" "secret";
                 LoadCategories (CategoriesOk [movieX; bbc; kids]);
                 ToggleChip 0 ] initialPage in
  "live" ∈ map section (sectionButtons p)
  ∧ ¬ sectionFullySelected "live" p
  ∧ sectionFullySelected "live" (selectAllInSection "live" p)
  ∧ sectionUnselected "live" (selectAllInSection "live" (selectAllInSection "live" p)).
Proof.
  intros p.
  assert (Hb : "live" ∈ map section (sectionButtons p)) by (vm_compute; constructor).
  assert (Hpart : ¬ sectionFullySelected "live" p).
  { intros Hfull. apply allSelected_true in Hfull. by vm_compute in Hfull. }
  destruct (selectAllInSection_all_or_nothing "live" p Hb)
    as (_ & Hon & _ & _ & _ & Hoff & _).
  split; [exact Hb |]. split; [exact Hpart |].
  split; [exact (Hon Hpart) | exact (Hoff Hpart)].
Defined.

(** *** Order of the selected names *)

Lemma pushCategory_throws g c :
  contentTypeOf c ∈ objectPrototypeKeys →
  pushCategory g c = Js.Throw pushIsNotAFunction.
Proof.
  intros Hin. unfold pushCategory.
  assert (Hk : ¬ known c) by (intros Hk; by apply sections_not_inherited in Hk).
  rewrite known_iff in Hk.
  rewrite !decide_False by tauto. by rewrite bool_decide_eq_true_2.
Qed.

Lemma groupCategories_groupable cats g :
  groupCategories cats = Js.Ok g → groupable cats.
Proof.
  unfold groupCategories. generalize emptyGroups. intros g0. revert g0.
  induction cats as [| c cats IH]; intros g0 Hok; [constructor |].
  simpl in Hok.
  destruct (decide (contentTypeOf c ∈ objectPrototypeKeys)) as [Hin | Hnin].
  - by rewrite pushCategory_throws in Hok.
  - rewrite pushCategory_ok in Hok by done. simpl in Hok.
    constructor; [done | by eapply IH].
Qed.

Lemma displayCategoryChips_chips cats p0 p1 :
  displayCategoryChips cats p0 = (p1, Js.Ok tt) →
  chips p1 = map mkChip (displayOrder cats).
Proof.
  unfold displayCategoryChips. intros Hd.
  destruct (groupCategories cats) as [g |] eqn:Hg; [| discriminate].
  rewrite (groupCategories_ok cats) in Hg by (by eapply groupCategories_groupable).
  injection Hg as <-. injection Hd as <-.
  unfold displayOrder. simpl. unfold sectionChips. simpl.
  by rewrite app_nil_r, !map_app.
Qed.

Lemma unselected_alter f i l :
  (∀ chip, setSelected false (f chip) = setSelected false chip) →
  unselected (alter f i l) = unselected l.
Proof.
  intros Hf. unfold unselected. revert i.
  induction l as [| chip l IH]; intros [| i]; try done.
  - change (alter f 0 (chip :: l)) with (f chip :: l). simpl. by rewrite Hf.
  - change (alter f (S i) (chip :: l)) with (chip :: alter f i l). simpl.
    by rewrite IH.
Qed.

Lemma handle_selection_unselected e p :
  selectionEvent e → unselected (chips (handle e p)) = unselected (chips p).
Proof.
  destruct e; simpl; try done; intros _.
  - by apply unselected_alter.
  - unfold selectAllInSection. case_bool_decide; [| done]. simpl.
    apply toggleSection_unselected.
  - unfold selectAllShortcut. destruct (_ =? _)%nat; [| done]. simpl.
    unfold unselected. rewrite map_map. apply map_ext.
    intros chip. unfold setAll. by case allSelected.
  - unfold unselected. rewrite map_map. by apply map_ext.
Qed.

Lemma run_selection_unselected events p :
  Forall selectionEvent events →
  unselected (chips (run events p)) = unselected (chips p).
Proof.
  intros Hev. revert p. induction Hev as [| e events He _ IH]; intros p; [done |].
  simpl. unfold run in IH. rewrite IH. by apply handle_selection_unselected.
Qed.

Lemma selected_names_pick l (shown : list RawCategory) :
  unselected l = map mkChip shown →
  map categoryName (filter (fun chip => selected chip = true) l)
    = map category_name (pick (map selected l) shown).
Proof.
  revert shown. induction l as [| chip l IH]; intros [| c shown] Heq;
    try done. simpl in Heq. injection Heq as _ Hname _ _ Hl.
  rewrite filter_cons. simpl. destruct (selected chip) eqn:E.
  - rewrite decide_True by done. simpl. by rewrite (IH shown Hl), Hname.
  - rewrite decide_False by done. exact (IH shown Hl).
Qed.

Lemma pick_sublist {A} flags (l : list A) : pick flags l `sublist_of` l.
Proof.
  revert l. induction flags as [| b flags IH]; intros [| x l]; simpl;
    try apply sublist_nil_l.
  destruct b; [by apply sublist_skip | by apply sublist_cons].
Qed.

Lemma toggleChip_commute i j p :
  toggleChip i (toggleChip j p) = toggleChip j (toggleChip i p).
Proof.
  unfold toggleChip, setChips. simpl. f_equal.
  destruct (decide (i = j)) as [-> | Hij]; [done |].
  by apply list_alter_alter_ne.
Qed.

Lemma run_toggles_permutation (xs ys : list nat) :
  xs ≡ₚ ys → ∀ p, run (map ToggleChip xs) p = run (map ToggleChip ys) p.
Proof.
  induction 1 as [| i xs ys _ IH | i j xs | xs ys zs _ IH1 _ IH2]; intros p.
  - done.
  - simpl. apply IH.
  - simpl. by rewrite toggleChip_commute.
  - by rewrite IH1.
Qed.

Lemma group_filter_value (f : Form) (names : list string) :
  names ≠ [] →
  Params.getAll
    (if decide (filterMode f = "include") then "wanted_groups" else "unwanted_groups")
    (playlistParams f names) = [Js.join "," names].
Proof.
  intros Hn. unfold playlistParams. destruct names; [done |].
  destruct (includeVod f); case_decide; reflexivity.
Qed.

(** X24: after the chips of a fetched list whose names hold no markup
    were laid out and the user moved the selection around in any way, the
    selected names are those of the categories whose chip is selected,
    listed in display order: live first, then vod, then series, each in
    fetch order; the value sent is their comma-joined sequence.  Toggling
    the same chips in another order gives the same names. *)
Theorem selected_names_follow_display_order cats p0 p1 events :
  plainNames cats →
  displayCategoryChips cats p0 = (p1, Js.Ok tt) →
  Forall selectionEvent events →
  let p2 := run events p1 in
  let shown := displayOrder cats in
  let names := map category_name (pick (map selected (chips p2)) shown) in
  length (chips p2) = length shown
  ∧ getSelectedCategories p2 = names
  ∧ names `sublist_of` map category_name shown
  ∧ (∀ reply, names ≠ [] →
       ∃ q, snd (confirmGeneration reply p2) = [ {| endpoint := "/m3u"; query := q |} ]
         ∧ Params.getAll
             (if decide (filterMode (form p2) = "include")
              then "wanted_groups" else "unwanted_groups") q
           = [Js.join "," names])
  ∧ (∀ xs ys, xs ≡ₚ ys →
       getSelectedCategories (run (map ToggleChip xs) p2)
       = getSelectedCategories (run (map ToggleChip ys) p2)).
Proof.
  intros _ Hd Hev p2 shown names.
  assert (Hshape : unselected (chips p2) = map mkChip shown).
  { subst p2. rewrite run_selection_unselected by done.
    rewrite (displayCategoryChips_chips cats p0 p1 Hd).
    unfold unselected. rewrite map_map. by apply map_ext. }
  assert (Hnames : getSelectedCategories p2 = names).
  { by apply selected_names_pick. }
  repeat split.
  - apply (f_equal length) in Hshape. unfold unselected in Hshape.
    by rewrite !length_map in Hshape.
  - exact Hnames.
  - subst names. apply (fmap_sublist category_name), pick_sublist.
  - intros reply Hne. eexists. split; [apply confirmGeneration_request |].
    rewrite Hnames. by apply group_filter_value.
  - intros xs ys Hperm. by rewrite (run_toggles_permutation xs ys Hperm).
Qed.

Lemma selected_names_follow_display_order_witness :
  let cats := [movieX; bbc; kids] in
  let p0 := handle (FillCredentials "http://tv.example" "alice" "secret") initialPage in
  let p1 := fst (displayCategoryChips cats p0) in
  let events := [ToggleChip 2; SelectAllInSection "live"; ToggleChip 0] in
  plainNames cats
  ∧ displayCategoryChips cats p0 = (p1, Js.Ok tt)
  ∧ Forall selectionEvent events
  ∧ getSelectedCategories (run events p1) = ["Kids"; "Movie X"].
Proof.
  intros cats p0 p1 events.
  assert (Hd : displayCategoryChips cats p0 = (p1, Js.Ok tt)) by (by vm_compute).
  assert (Hev : Forall selectionEvent events) by (by repeat constructor).
  assert (Hplain : plainNames cats) by (by repeat constructor).
  split; [exact Hplain |]. split; [exact Hd |]. split; [exact Hev |].
  destruct (selected_names_follow_display_order cats p0 p1 events Hplain Hd Hev)
    as (_ & Hnames & _).
  rewrite Hnames. by vm_compute.
Defined.

End Selection.

(** ** The wizard *)
Section Wizard.

Implicit Types (p : Page) (f : Form).

Lemma falsy_true s : Js.falsy s = true ↔ s = "".
Proof. by destruct s. Qed.

Lemma falsy_false s : Js.falsy s = false ↔ s ≠ "".
Proof. by destruct s. Qed.

Lemma guard_passes f :
  credentialsFilled f →
  Js.falsy (Js.trim (url f)) || Js.falsy (Js.trim (username f))
    || Js.falsy (Js.trim (password f)) = false.
Proof.
  intros (Hu & Hn & Hw).
  apply falsy_false in Hu, Hn, Hw. by rewrite Hu, Hn, Hw.
Qed.

Lemma guard_stops f :
  Js.trim (url f) = "" ∨ Js.trim (username f) = "" ∨ Js.trim (password f) = "" →
  Js.falsy (Js.trim (url f)) || Js.falsy (Js.trim (username f))
    || Js.falsy (Js.trim (password f)) = true.
Proof.
  intros [H | [H | H]]; rewrite H; simpl; by rewrite ?orb_true_r.
Qed.

(** C6: with a credential that is empty once trimmed, [loadCategories]
    sends nothing and only shows the validation error: step, categories,
    chips and form stay as they are.  With all three filled it sends
    exactly one request, to [/categories]. *)
Theorem fetch_needs_all_credentials reply p :
  (Js.trim (url (form p)) = "" ∨ Js.trim (username (form p)) = ""
     ∨ Js.trim (password (form p)) = "" →
   let p' := fst (loadCategories reply p) in
   snd (loadCategories reply p) = []
   ∧ results p' = Some (AlertError "Please fill in all required fields")
   ∧ currentStep p' = currentStep p ∧ activeStep p' = activeStep p
   ∧ categories p' = categories p ∧ chips p' = chips p
   ∧ form p' = form p ∧ downloadLink p' = downloadLink p
   ∧ objectUrls p' = objectUrls p)
  ∧ (credentialsFilled (form p) →
     snd (loadCategories reply p) =
       [ {| endpoint := "/categories"; query := categoriesParams (form p) |} ]).
Proof.
  split.
  - intros Hempty. unfold loadCategories. by rewrite guard_stops.
  - intros Hfilled. unfold loadCategories. rewrite guard_passes by done.
    by destruct (receiveCategories _ _) as [? [[] | ?]].
Qed.

Lemma fetch_needs_all_credentials_witness :
  let blank := handle (FillCredentials "http://tv.example" "   " "secret") initialPage in
  let filled := handle (FillCredentials "http://tv.example" "alice" "secret") initialPage in
  (Js.trim (username (form blank)) = ""
   ∧ snd (loadCategories (CategoriesOk [bbc]) blank) = []
   ∧ currentStep (fst (loadCategories (CategoriesOk [bbc]) blank)) = 1)
  ∧ (credentialsFilled (form filled)
     ∧ snd (loadCategories (CategoriesOk [bbc]) filled) =
         [ {| endpoint := "/categories"; query := categoriesParams (form filled) |} ]).
Proof.
  intros blank filled.
  assert (Hblank : Js.trim (username (form blank)) = "") by (by vm_compute).
  assert (Hfilled : credentialsFilled (form filled)) by (by vm_compute).
  destruct (fetch_needs_all_credentials (CategoriesOk [bbc]) blank) as [Hstop _].
  destruct (fetch_needs_all_credentials (CategoriesOk [bbc]) filled) as [_ Hgo].
  split.
  - destruct (Hstop (or_intror (or_introl Hblank))) as (Hnone & _ & Hstep & _).
    split; [exact Hblank |]. split; [exact Hnone | exact Hstep].
  - split; [exact Hfilled | exact (Hgo Hfilled)].
Defined.

(** C7: a non-2xx reply to the category request leaves the wizard on
    step 1 with an error alert whose message is the reply's [details]
    when it has one, else its [error] when it has one, else
    "Failed to load categories" (an empty string counts as none);
    categories and chips are not touched.  A rejected fetch likewise
    ends on step 1 with the transport's message, and no reply ends
    anywhere but on step 2 without an alert or on step 1 with one. *)
Theorem failed_fetch_stays_on_credentials p :
  credentialsFilled (form p) →
  (∀ details error,
     let p' := fst (loadCategories (CategoriesNotOk details error) p) in
     currentStep p' = 1 ∧ activeStep p' = Some 1
     ∧ categories p' = categories p ∧ chips p' = chips p
     ∧ ∃ m, results p' = Some (AlertError ("Failed to load categories: " +:+ m))
         ∧ (∀ d, details = Some d → d ≠ "" → m = d)
         ∧ (details = None ∨ details = Some "" →
            ∀ e, error = Some e → e ≠ "" → m = e)
         ∧ (details = None ∨ details = Some "" →
            error = None ∨ error = Some "" → m = "Failed to load categories"))
  ∧ (∀ message,
       let p' := fst (loadCategories (CategoriesRejected message) p) in
       currentStep p' = 1 ∧ activeStep p' = Some 1
       ∧ results p' = Some (AlertError ("Failed to load categories: " +:+ message)))
  ∧ (∀ reply,
       let p' := fst (loadCategories reply p) in
       (currentStep p' = 2 ∧ results p' = None
        ∧ ∃ data, reply = CategoriesOk data ∧ categories p' = data)
       ∨ (currentStep p' = 1
          ∧ ∃ m, results p' = Some (AlertError ("Failed to load categories: " +:+ m)))).
Proof.
  intros Hfilled. unfold loadCategories. rewrite guard_passes by done.
  split; [| split].
  - intros details error. simpl. repeat split.
    exists (backendMessage details error). split; [done |].
    unfold backendMessage. repeat split.
    + intros d -> Hd. simpl. by destruct d.
    + intros Hdet e -> He.
      destruct Hdet as [-> | ->]; simpl; by destruct e.
    + intros [-> | ->] [-> | ->]; reflexivity.
  - intros message. by simpl.
  - intros [message | details error | data]; simpl.
    + right. eauto.
    + right. eauto.
    + unfold displayCategoryChips.
      destruct (groupCategories data) as [g | message]; simpl.
      * left. eauto.
      * right. eauto.
Qed.

Lemma failed_fetch_stays_on_credentials_witness :
  let p := handle (FillCredentials "http://tv.example" "alice" "secret") initialPage in
  credentialsFilled (form p)
  ∧ results (fst (loadCategories (CategoriesNotOk (Some "Bad login") (Some "Upstream error")) p))
      = Some (AlertError "Failed to load categories: Bad login")
  ∧ currentStep (fst (loadCategories (CategoriesNotOk (Some "Bad login") (Some "Upstream error")) p)) = 1.
Proof.
  intros p.
  assert (Hfilled : credentialsFilled (form p)) by (by vm_compute).
  split; [exact Hfilled |].
  destruct (failed_fetch_stays_on_credentials p Hfilled) as [Hnotok _].
  destruct (Hnotok (Some "Bad login") (Some "Upstream error"))
    as (Hstep & _ & _ & _ & m & Hres & Hdet & _).
  split; [| exact Hstep].
  rewrite Hres. by rewrite (Hdet "Bad login" eq_refl).
Defined.

(** C8: "use other credentials" empties the three credential inputs
    and the results pane and shows step 1; "go back" only shows step 1.
    Neither touches the fetched categories, the chips with their
    selection, the section buttons, the VOD box, the filter mode or the
    download link. *)
Theorem back_to_credentials_keeps_selection p :
  (let p' := useOtherCredentials p in
   form p' = clearCredentials (form p)
   ∧ url (form p') = "" ∧ username (form p') = "" ∧ password (form p') = ""
   ∧ includeVod (form p') = includeVod (form p)
   ∧ filterMode (form p') = filterMode (form p)
   ∧ categories p' = categories p
   ∧ chips p' = chips p
   ∧ getSelectedCategories p' = getSelectedCategories p
   ∧ sectionButtons p' = sectionButtons p
   ∧ downloadLink p' = downloadLink p ∧ objectUrls p' = objectUrls p
   ∧ results p' = None
   ∧ currentStep p' = 1 ∧ activeStep p' = Some 1)
  ∧ (let p' := goBackToStep1 p in
     form p' = form p
     ∧ categories p' = categories p
     ∧ chips p' = chips p
     ∧ getSelectedCategories p' = getSelectedCategories p
     ∧ sectionButtons p' = sectionButtons p
     ∧ downloadLink p' = downloadLink p ∧ objectUrls p' = objectUrls p
     ∧ results p' = results p
     ∧ currentStep p' = 1 ∧ activeStep p' = Some 1).
Proof. by repeat split. Qed.

(** C4: the playlist request, which every [confirmGeneration] sends, and
    the category request, which [loadCategories] sends once the
    credentials are filled in, each carry [include_vod] exactly when the
    box is ticked: then once, with the value ["true"]; with the box
    unticked the key is absent.  Without filled credentials
    [loadCategories] sends nothing at all. *)
Theorem include_vod_only_when_ticked creply preply p :
  (∃ q, snd (confirmGeneration preply p) = [ {| endpoint := "/m3u"; query := q |} ]
        ∧ (includeVod (form p) = true → Params.getAll "include_vod" q = ["true"])
        ∧ (includeVod (form p) = false → "include_vod" ∉ Params.keys q))
  ∧ (credentialsFilled (form p) →
     ∃ q, snd (loadCategories creply p)
          = [ {| endpoint := "/categories"; query := q |} ]
        ∧ (includeVod (form p) = true → Params.getAll "include_vod" q = ["true"])
        ∧ (includeVod (form p) = false → "include_vod" ∉ Params.keys q))
  ∧ (¬ credentialsFilled (form p) → snd (loadCategories creply p) = []).
Proof.
  split; [| split].
  - eexists. split; [apply confirmGeneration_request |].
    unfold playlistParams.
    destruct (getSelectedCategories p); split; intros ->;
      try case_decide; try reflexivity;
      apply (bool_decide_eq_false_1 _); reflexivity.
  - intros Hf. eexists. split.
    + unfold loadCategories. rewrite guard_passes by done.
      by destruct (receiveCategories _ _) as [? [[] | ?]].
    + unfold categoriesParams. split; intros ->; try reflexivity.
      apply (bool_decide_eq_false_1 _); reflexivity.
  - intros Hn. unfold loadCategories. rewrite guard_stops; [done |].
    unfold credentialsFilled in Hn.
    destruct (Js.trim (url (form p))); [by left |].
    destruct (Js.trim (username (form p))); [right; by left |].
    destruct (Js.trim (password (form p))); [right; by right |].
    exfalso. by apply Hn.
Qed.

Lemma include_vod_only_when_ticked_witness :
  let ticked := newsAndSports "exclude" true in
  let unticked := newsAndSports "exclude" false in
  credentialsFilled (form ticked) ∧ includeVod (form ticked) = true
  ∧ (∃ q, snd (confirmGeneration PlaylistOk ticked)
          = [ {| endpoint := "/m3u"; query := q |} ]
        ∧ Params.getAll "include_vod" q = ["true"])
  ∧ (∃ q, snd (loadCategories (CategoriesOk []) ticked)
          = [ {| endpoint := "/categories"; query := q |} ]
        ∧ Params.getAll "include_vod" q = ["true"])
  ∧ (∃ q, snd (confirmGeneration PlaylistOk unticked)
          = [ {| endpoint := "/m3u"; query := q |} ]
        ∧ ("include_vod" ∉ Params.keys q)).
Proof.
  intros ticked unticked.
  assert (Hf : credentialsFilled (form ticked)) by (by vm_compute).
  destruct (include_vod_only_when_ticked (CategoriesOk []) PlaylistOk ticked)
    as ((q & Hq & Hon & _) & Hcat & _).
  destruct (Hcat Hf) as (q' & Hq' & Hon' & _).
  destruct (include_vod_only_when_ticked (CategoriesOk []) PlaylistOk unticked)
    as ((q0 & Hq0 & _ & Hoff) & _ & _).
  split; [exact Hf |]. split; [reflexivity |].
  split; [exists q; split; [exact Hq | exact (Hon eq_refl)] |].
  split; [exists q'; split; [exact Hq' | exact (Hon' eq_refl)] |].
  exists q0. split; [exact Hq0 | exact (Hoff eq_refl)].
Defined.

(** *** Object URLs *)

(** C9 fails on the code: only [startOver] revokes the object URL of
    the download link.  "Use other credentials" and "go back" keep it
    alive, and the next generation overwrites the link with a fresh
    URL, so after [twoGenerations] two object URLs are live while the
    link holds only the second; a following "start over" revokes that
    one and the first stays live for good. *)
Theorem object_url_leaks_across_generations :
  let p := run twoGenerations initialPage in
  currentStep p = 3
  ∧ objectUrls p = [0; 1]
  ∧ href (downloadLink p) = Some 1
  ∧ objectUrls (startOver p) = [0]
  ∧ (∀ q, objectUrls (useOtherCredentials q) = objectUrls q
          ∧ href (downloadLink (useOtherCredentials q)) = href (downloadLink q))
  ∧ (∀ q, objectUrls (goBackToStep1 q) = objectUrls q
          ∧ href (downloadLink (goBackToStep1 q)) = href (downloadLink q)).
Proof. by repeat split. Qed.

(** C10 fails on the code: [displayCategoryChips] writes the category
    name into the chip's [innerHTML] unescaped, so a fetched name is
    parsed as markup.  After a successful fetch of [ghostCategory] the one
    chip holds, inside its markup and word for word, a [div] with the
    classes [category-chip selected] and the name "Ghost": an element the
    selector of [getSelectedCategories] matches although no category was
    selected and none is called "Ghost". *)
Theorem markup_in_name_reaches_innerHTML :
  (∀ c, innerHTML (mkChip c)
        = "<span class=" +:+ Js.quote +:+ "chip-text" +:+ Js.quote +:+ ">"
            +:+ category_name c +:+ "</span>")
  ∧ let p := fst (loadCategories (CategoriesOk [ghostCategory])
                    (handle (FillCredentials "http://tv.example" "alice" "secret")
                       initialPage)) in
    currentStep p = 2 ∧ results p = None
    ∧ categories p = [ghostCategory]
    ∧ map innerHTML (chips p) = [chipMarkup ghostName]
    ∧ Js.plainText ghostName = false
    ∧ chipMarkup ghostName
      = "<span class=" +:+ Js.quote +:+ "chip-text" +:+ Js.quote +:+ ">Sport</span>"
          +:+ ("<div class=" +:+ Js.quote +:+ "category-chip selected" +:+ Js.quote
                 +:+ " data-category-name=" +:+ Js.quote +:+ "Ghost" +:+ Js.quote
                 +:+ "></div>")
          +:+ "<span></span>".
Proof. by repeat split. Qed.

(** What [startOver] does discard: credentials, VOD box, categories,
    chips, alert, and the object URL the link holds. *)
Lemma startOver_discards p :
  let p' := startOver p in
  url (form p') = "" ∧ username (form p') = "" ∧ password (form p') = ""
  ∧ includeVod (form p') = false
  ∧ categories p' = [] ∧ chips p' = [] ∧ getSelectedCategories p' = []
  ∧ results p' = None ∧ displayed (downloadLink p') = false
  ∧ currentStep p' = 1 ∧ activeStep p' = Some 1
  ∧ (∀ u, href (downloadLink p) = Some u → u ∉ objectUrls p').
Proof.
  intros p'. subst p'. unfold startOver. simpl.
  destruct (href (downloadLink p)) as [v |] eqn:E; simpl;
    do 11 (split; [reflexivity |]); intros u Hu; [| done].
  injection Hu as ->. rewrite list_elem_of_filter. by intros [? _].
Qed.

End Wizard.

(** ** Toggling chips, further *)
Section Toggling.

Implicit Types (p : Page) (l : list Chip) (chip : Chip) (key : string).

Lemma setChips_same p : setChips (chips p) p = p.
Proof. by destruct p. Qed.

(** X1: [toggleChip] is its own inverse: a second click on the same chip
    gives back the page as it was. *)
Theorem toggleChip_involutive i p : toggleChip i (toggleChip i p) = p.
Proof.
  unfold toggleChip. simpl. rewrite list_alter_alter_eq.
  rewrite list_alter_id; [by destruct p |].
  intros chip. simpl. rewrite negb_involutive. by destruct chip.
Qed.

Lemma toggleChip_lookup i j p :
  chips (toggleChip j p) !! i =
    (fun chip => if decide (j = i) then setSelected (negb (selected chip)) chip
                 else chip) <$> chips p !! i.
Proof.
  unfold toggleChip. simpl. rewrite list_lookup_alter.
  case_decide; [by subst |]. by destruct (chips p !! i).
Qed.

(** X2: After any series of chip clicks a chip is selected exactly when its
    state before, flipped once per click on it, says so: an odd number of
    clicks flips it, an even number leaves it; nothing else about the chip
    changes. *)
Theorem toggles_flip_by_parity xs i p chip :
  chips p !! i = Some chip →
  chips (run (map ToggleChip xs) p) !! i =
    Some (setSelected (xorb (selected chip) (Nat.odd (clicks i xs))) chip).
Proof.
  revert p chip. induction xs as [| j xs IH]; intros p chip Hi.
  - simpl. rewrite Hi. f_equal. unfold clicks. simpl.
    rewrite xorb_false_r. by destruct chip.
  - change (run (map ToggleChip (j :: xs)) p)
      with (run (map ToggleChip xs) (toggleChip j p)).
    unfold clicks. rewrite filter_cons.
    destruct (decide (j = i)) as [-> | Hne].
    + assert (Hj : chips (toggleChip i p) !! i
                   = Some (setSelected (negb (selected chip)) chip)).
      { rewrite toggleChip_lookup, Hi. simpl. by rewrite decide_True. }
      rewrite (IH _ _ Hj). simpl. f_equal.
      rewrite Nat.odd_succ, <- Nat.negb_odd. fold (clicks i xs).
      destruct chip as [? ? ? ? sel]; simpl.
      by destruct sel, (Nat.odd (clicks i xs)).
    + assert (Hj : chips (toggleChip j p) !! i = Some chip).
      { rewrite toggleChip_lookup, Hi. simpl. by rewrite decide_False. }
      by rewrite (IH _ _ Hj).
Qed.

Lemma toggles_flip_by_parity_witness :
  let p := fst (displayCategoryChips [movieX; bbc; kids] initialPage) in
  chips p !! 1 = Some (mkChip kids)
  ∧ chips (run (map ToggleChip [1; 0; 1; 1]) p) !! 1
    = Some (setSelected true (mkChip kids)).
Proof.
  intros p.
  assert (Hk : chips p !! 1 = Some (mkChip kids)) by reflexivity.
  split; [exact Hk |].
  exact (toggles_flip_by_parity [1; 0; 1; 1] 1 p (mkChip kids) Hk).
Defined.

Lemma setAll_all b l :
  map (setAll b) l = map (setSelected (negb b)) l.
Proof. apply map_ext. intros chip. by destruct b. Qed.

(** X3: Ctrl/Cmd+A acts on the chips in step 2 only.  There it clears every
    chip when all are selected and selects every chip otherwise, leaves
    the captions of the section buttons as they are, and adds or removes
    no chip; a second press after a press that selected everything clears
    everything. *)
Theorem selectAllShortcut_all_or_nothing p :
  (currentStep p ≠ 2 → selectAllShortcut p = p)
  ∧ (currentStep p = 2 →
     let p1 := selectAllShortcut p in
     (Forall (fun chip => selected chip = true) (chips p) →
      Forall (fun chip => selected chip = false) (chips p1))
     ∧ (¬ Forall (fun chip => selected chip = true) (chips p) →
        Forall (fun chip => selected chip = true) (chips p1)
        ∧ Forall (fun chip => selected chip = false) (chips (selectAllShortcut p1)))
     ∧ unselected (chips p1) = unselected (chips p)
     ∧ sectionButtons p1 = sectionButtons p
     ∧ currentStep p1 = 2).
Proof.
  unfold selectAllShortcut. split.
  - intros Hstep. apply Nat.eqb_neq in Hstep. by rewrite Hstep.
  - intros Hstep. rewrite Hstep. simpl. rewrite Hstep. simpl.
    repeat split.
    + intros Hall. apply allSelected_true in Hall. rewrite Hall.
      apply (setAll_selected true).
    + destruct (allSelected (chips p)) eqn:E;
        [by apply allSelected_true in E |].
      apply (setAll_selected false).
    + destruct (allSelected (chips p)) eqn:E;
        [by apply allSelected_true in E |].
      assert (Hnow : allSelected (map (setAll false) (chips p)) = true).
      { apply allSelected_true. apply (setAll_selected false). }
      rewrite Hnow. apply (setAll_selected true).
    + unfold unselected. rewrite map_map. apply map_ext.
      intros chip. unfold setAll. by case allSelected.
Qed.

Lemma selectAllShortcut_all_or_nothing_witness :
  let p := run [ FillCredentials "http://tv.example" "alice" "secret";
                 LoadCategories (CategoriesOk [movieX; bbc; kids]);
                 ToggleChip 2 ] initialPage in
  currentStep p = 2
  ∧ ¬ Forall (fun chip => selected chip = true) (chips p)
  ∧ Forall (fun chip => selected chip = true) (chips (selectAllShortcut p))
  ∧ Forall (fun chip => selected chip = false)
      (chips (selectAllShortcut (selectAllShortcut p))).
Proof.
  intros p.
  assert (Hstep : currentStep p = 2) by reflexivity.
  assert (Hpart : ¬ Forall (fun chip => selected chip = true) (chips p)).
  { intros Hall. apply allSelected_true in Hall. by vm_compute in Hall. }
  destruct (selectAllShortcut_all_or_nothing p) as [_ Hin].
  destruct (Hin Hstep) as (_ & Hsel & _).
  split; [exact Hstep |]. split; [exact Hpart |]. exact (Hsel Hpart).
Defined.

Lemma selected_none l :
  filter (fun chip => selected chip = true) (map (setSelected false) l) = [].
Proof.
  induction l as [| chip l IH]; [done |]. simpl.
  by rewrite filter_cons_False.
Qed.

(** X4: "Clear selection" leaves no chip selected and every section button
    reading "Select All"; chips and buttons stay the same otherwise, and a
    playlist request sent afterwards carries neither group key. *)
Theorem clearSelection_resets p :
  let p' := clearSelection p in
  getSelectedCategories p' = []
  ∧ unselected (chips p') = unselected (chips p)
  ∧ map section (sectionButtons p') = map section (sectionButtons p)
  ∧ Forall (fun b => textContent b = "Select All") (sectionButtons p')
  ∧ (∀ reply r, r ∈ snd (confirmGeneration reply p') →
       ("wanted_groups" ∉ Params.keys (query r))
       ∧ ("unwanted_groups" ∉ Params.keys (query r))).
Proof.
  intros p'.
  assert (Hnone : getSelectedCategories p' = []).
  { unfold getSelectedCategories, selectedChips. subst p'. simpl.
    by rewrite selected_none. }
  split; [exact Hnone |].
  split. { subst p'. simpl. unfold unselected. rewrite map_map. by apply map_ext. }
  split. { subst p'. simpl. rewrite map_map. by apply map_ext. }
  split.
  { subst p'. simpl. apply Forall_forall. intros b Hb.
    by apply list_elem_of_fmap in Hb as (b0 & -> & _). }
  intros reply r Hr. rewrite confirmGeneration_request in Hr.
  apply list_elem_of_singleton in Hr as ->. simpl. rewrite Hnone.
  unfold playlistParams. subst p'. simpl.
  destruct (includeVod (form p)); split;
    apply (bool_decide_eq_false_1 _); reflexivity.
Qed.

Lemma clearSelection_resets_witness :
  let p := newsAndSports "include" false in
  let r := {| endpoint := "/m3u";
              query := playlistParams (form (clearSelection p)) [] |} in
  getSelectedCategories p = ["News"; "Sports"]
  ∧ r ∈ snd (confirmGeneration PlaylistOk (clearSelection p))
  ∧ ("wanted_groups" ∉ Params.keys (query r)).
Proof.
  intros p r.
  assert (Hr : r ∈ snd (confirmGeneration PlaylistOk (clearSelection p)))
    by (vm_compute; constructor).
  split; [reflexivity |]. split; [exact Hr |].
  destruct (clearSelection_resets p) as (_ & _ & _ & _ & Hreq).
  exact (proj1 (Hreq PlaylistOk r Hr)).
Defined.

End Toggling.

(** ** Laying out the chips *)
Section Layout.

Implicit Types (p : Page) (cats : list RawCategory) (key : string).

Lemma forEach_pushCategory_throws cats g :
  ¬ groupable cats →
  Js.forEach pushCategory cats g = Js.Throw pushIsNotAFunction.
Proof.
  revert g. induction cats as [| c cats IH]; intros g Hn.
  - exfalso. apply Hn. constructor.
  - simpl. destruct (decide (contentTypeOf c ∈ objectPrototypeKeys)) as [Hin | Hout].
    + by rewrite pushCategory_throws.
    + rewrite pushCategory_ok by done. simpl. apply IH.
      intros Hcats. apply Hn. by constructor.
Qed.

Lemma not_groupable_exists cats :
  ¬ groupable cats → Exists (fun c => contentTypeOf c ∈ objectPrototypeKeys) cats.
Proof.
  induction cats as [| c cats IH]; intros Hn.
  - exfalso. apply Hn. constructor.
  - destruct (decide (contentTypeOf c ∈ objectPrototypeKeys)) as [Hin | Hout].
    + by apply Exists_cons_hd.
    + apply Exists_cons_tl, IH. intros Hcats. apply Hn. by constructor.
Qed.

(** X5: The grouping loop has two outcomes only: it finishes, exactly when
    no record's content type names a property inherited from
    [Object.prototype], and otherwise throws the TypeError of the missing
    [push], whatever was grouped before the offending record. *)
Theorem grouping_throws_iff_inherited_key cats :
  (groupCategories cats = Js.Throw pushIsNotAFunction
   ↔ Exists (fun c => contentTypeOf c ∈ objectPrototypeKeys) cats)
  ∧ ((∃ g, groupCategories cats = Js.Ok g)
     ↔ Forall (fun c => contentTypeOf c ∉ objectPrototypeKeys) cats).
Proof.
  split; split.
  - intros Hthrow. apply not_groupable_exists.
    intros Hg. by rewrite (groupCategories_ok cats Hg) in Hthrow.
  - intros Hex. apply forEach_pushCategory_throws.
    intros Hg. apply Exists_exists in Hex as (c & Hin & Hc).
    unfold groupable in Hg. rewrite Forall_forall in Hg. by apply (Hg c).
  - intros [g Hg]. by apply (groupCategories_groupable cats g).
  - intros Hg. eexists. by apply groupCategories_ok.
Qed.

Lemma grouping_throws_iff_inherited_key_witness :
  Exists (fun c => contentTypeOf c ∈ objectPrototypeKeys)
    [bbc; {| category_id := "9"; category_name := "Odd";
             content_type := Some "constructor" |}; kids]
  ∧ groupCategories
      [bbc; {| category_id := "9"; category_name := "Odd";
               content_type := Some "constructor" |}; kids]
    = Js.Throw pushIsNotAFunction.
Proof.
  assert (Hex : Exists (fun c => contentTypeOf c ∈ objectPrototypeKeys)
            [bbc; {| category_id := "9"; category_name := "Odd";
                     content_type := Some "constructor" |}; kids]).
  { apply Exists_cons_tl, Exists_cons_hd. constructor. }
  split; [exact Hex |].
  exact (proj2 (proj1 (grouping_throws_iff_inherited_key _)) Hex).
Defined.

Lemma displayCategoryChips_ok cats p0 p1 :
  displayCategoryChips cats p0 = (p1, Js.Ok tt) →
  groupable cats
  ∧ chips p1 = map mkChip (displayOrder cats)
  ∧ sectionButtons p1 =
      sectionHeader {| live := ofType "live" cats; vod := ofType "vod" cats;
                       series := ofType "series" cats |} "live"
      ++ sectionHeader {| live := ofType "live" cats; vod := ofType "vod" cats;
                          series := ofType "series" cats |} "vod"
      ++ sectionHeader {| live := ofType "live" cats; vod := ofType "vod" cats;
                          series := ofType "series" cats |} "series".
Proof.
  intros Hd.
  split; [| split; [by eapply displayCategoryChips_chips |]].
  - unfold displayCategoryChips in Hd.
    destruct (groupCategories cats) as [g |] eqn:Hg; [| discriminate].
    by eapply groupCategories_groupable.
  - unfold displayCategoryChips in Hd.
    destruct (groupCategories cats) as [g |] eqn:Hg; [| discriminate].
    rewrite (groupCategories_ok cats) in Hg by (by eapply groupCategories_groupable).
    injection Hg as <-. injection Hd as <-. simpl. by rewrite app_nil_r.
Qed.

Lemma sectionHeader_sections cats key :
  key ∈ map section
          (sectionHeader {| live := ofType "live" cats; vod := ofType "vod" cats;
                            series := ofType "series" cats |} "live"
           ++ sectionHeader {| live := ofType "live" cats; vod := ofType "vod" cats;
                               series := ofType "series" cats |} "vod"
           ++ sectionHeader {| live := ofType "live" cats; vod := ofType "vod" cats;
                               series := ofType "series" cats |} "series")
  ↔ key ∈ sections ∧ ofType key cats ≠ [].
Proof.
  unfold sectionHeader, groupOf, sections. simpl.
  rewrite !elem_of_cons, elem_of_nil.
  destruct (ofType "live" cats) eqn:El, (ofType "vod" cats) eqn:Ev,
    (ofType "series" cats) eqn:Es; simpl;
    rewrite ?elem_of_cons, ?elem_of_nil;
    split; intros H;
    repeat match goal with
           | H : _ ∨ _ |- _ => destruct H as [H | H]
           | H : _ ∧ _ |- _ => destruct H
           | H : False |- _ => destruct H
           end; subst; rewrite ?El, ?Ev, ?Es in *; try done; auto 6.
Qed.

(** X6: A successful layout of categories whose names hold no markup
    gives a select-all button to exactly the sections that have a
    category, in the order live, vod, series and captioned "Select All";
    every chip belongs to a section with a button, and no chip starts
    selected. *)
Theorem layout_buttons_match_sections cats p0 p1 :
  plainNames cats →
  displayCategoryChips cats p0 = (p1, Js.Ok tt) →
  (∀ key, key ∈ map section (sectionButtons p1)
          ↔ key ∈ sections ∧ ofType key cats ≠ [])
  ∧ map section (sectionButtons p1) `sublist_of` sections
  ∧ Forall (fun b => textContent b = "Select All") (sectionButtons p1)
  ∧ (∀ chip, chip ∈ chips p1 →
       contentType chip ∈ map section (sectionButtons p1)
       ∧ selected chip = false).
Proof.
  intros _ Hd. destruct (displayCategoryChips_ok cats p0 p1 Hd) as (Hg & Hc & Hb).
  split; [| split; [| split]].
  - intros key. rewrite Hb. apply sectionHeader_sections.
  - rewrite Hb. unfold sectionHeader, groupOf, sections. simpl.
    destruct (ofType "live" cats), (ofType "vod" cats), (ofType "series" cats);
      simpl; repeat first [ apply sublist_nil_l | apply sublist_skip | apply sublist_cons ].
  - rewrite Hb. unfold sectionHeader, groupOf. simpl.
    destruct (ofType "live" cats), (ofType "vod" cats), (ofType "series" cats);
      simpl; by repeat constructor.
  - intros chip Hin. rewrite Hc in Hin.
    apply list_elem_of_fmap in Hin as (c & -> & Hin). split; [| done].
    rewrite Hb. apply sectionHeader_sections. simpl.
    unfold displayOrder in Hin. rewrite !elem_of_app, !ofType_elem in Hin.
    destruct Hin as [[Hk Hin] | [[Hk Hin] | [Hk Hin]]]; rewrite Hk;
      (split; [unfold sections; rewrite !elem_of_cons; tauto |]);
      intros Hnil;
      assert (Hc' : c ∈ ofType (contentTypeOf c) cats) by (by apply ofType_elem);
      rewrite Hk, Hnil in Hc'; by apply elem_of_nil in Hc'.
Qed.

Lemma layout_buttons_match_sections_witness :
  let p1 := fst (displayCategoryChips [movieX; bbc; kids] initialPage) in
  plainNames [movieX; bbc; kids]
  ∧ displayCategoryChips [movieX; bbc; kids] initialPage = (p1, Js.Ok tt)
  ∧ map section (sectionButtons p1) = ["live"; "vod"]
  ∧ Forall (fun b => textContent b = "Select All") (sectionButtons p1).
Proof.
  intros p1.
  assert (Hplain : plainNames [movieX; bbc; kids]) by (by repeat constructor).
  assert (Hd : displayCategoryChips [movieX; bbc; kids] initialPage = (p1, Js.Ok tt))
    by reflexivity.
  destruct (layout_buttons_match_sections _ _ _ Hplain Hd) as (_ & _ & Hcap & _).
  split; [exact Hplain |]. split; [exact Hd |]. split; [reflexivity | exact Hcap].
Defined.

Lemma filter_length_all {A} (P : A → Prop) `{!∀ x, Decision (P x)} (l : list A) :
  length (filter P l) = length l → Forall P l.
Proof.
  induction l as [| x l IH]; [constructor |].
  rewrite filter_cons. destruct (decide (P x)) as [Hx | Hx]; simpl.
  - intros Hlen. constructor; [done |]. apply IH. lia.
  - intros Hlen. pose proof (length_filter P l). lia.
Qed.

(** X7: Of categories whose names hold no markup, only those of known
    content type get a chip: the layout shows as many chips as there are
    such categories, never more than were fetched, and as many as were
    fetched exactly when every type is known; the chip names are the names
    of the known categories. *)
Theorem layout_shows_known_categories cats p0 p1 :
  plainNames cats →
  displayCategoryChips cats p0 = (p1, Js.Ok tt) →
  length (chips p1) = length (filter known cats)
  ∧ (length (chips p1) ≤ length cats)%nat
  ∧ (length (chips p1) = length cats ↔ Forall known cats)
  ∧ map categoryName (chips p1) ≡ₚ map category_name (filter known cats).
Proof.
  intros _ Hd. destruct (displayCategoryChips_ok cats p0 p1 Hd) as (_ & Hc & _).
  assert (Hlen : length (chips p1) = length (filter known cats)).
  { rewrite Hc, length_map. unfold displayOrder.
    by rewrite (ofType_partition cats). }
  split; [exact Hlen |]. split; [rewrite Hlen; apply length_filter |]. split.
  - rewrite Hlen. split; [apply filter_length_all |].
    intros Hall. by rewrite filter_all.
  - rewrite Hc, map_map. unfold displayOrder.
    change (map (fun c => categoryName (mkChip c))) with (map category_name).
    apply (fmap_Permutation category_name), ofType_partition.
Qed.

Lemma layout_shows_known_categories_witness :
  let p1 := fst (displayCategoryChips [radio; movieX; bbc] initialPage) in
  plainNames [radio; movieX; bbc]
  ∧ displayCategoryChips [radio; movieX; bbc] initialPage = (p1, Js.Ok tt)
  ∧ length (chips p1) = 2.
Proof.
  intros p1.
  assert (Hplain : plainNames [radio; movieX; bbc]) by (by repeat constructor).
  assert (Hd : displayCategoryChips [radio; movieX; bbc] initialPage = (p1, Js.Ok tt))
    by reflexivity.
  split; [exact Hplain |]. split; [exact Hd |].
  destruct (layout_shows_known_categories _ _ _ Hplain Hd) as (Hlen & _).
  by rewrite Hlen.
Defined.

Lemma ofType_ofType key key' cats :
  filter (fun c => contentTypeOf c = key) (ofType key' cats) =
    if decide (key' = key) then ofType key cats else [].
Proof.
  unfold ofType. rewrite list_filter_filter. case_decide as Hk.
  - subst. apply list_filter_iff. intros c. tauto.
  - induction cats as [| c cats IH]; [done |].
    rewrite filter_cons_False; [exact IH |]. intros [? ?]; congruence.
Qed.

Lemma ofType_displayOrder key cats :
  key ∈ sections →
  filter (fun c => contentTypeOf c = key) (displayOrder cats) = ofType key cats.
Proof.
  intros Hk. unfold displayOrder. rewrite !filter_app, !ofType_ofType.
  unfold sections in Hk. rewrite !elem_of_cons, elem_of_nil in Hk.
  destruct Hk as [-> | [-> | [-> | []]]]; repeat case_decide; try done;
    by rewrite ?app_nil_r.
Qed.

Lemma filter_mkChip_section key (shown : list RawCategory) :
  chipsOfSection key (map mkChip shown)
  = map mkChip (filter (fun c => contentTypeOf c = key) shown).
Proof.
  unfold chipsOfSection. induction shown as [| c shown IH]; [done |]. simpl.
  rewrite !filter_cons. simpl. case_decide; by rewrite IH.
Qed.

Lemma selected_after_selecting_section key (shown : list RawCategory) :
  map categoryName
    (filter (fun chip => selected chip = true)
       (map (fun chip => if decide (contentType chip = key)
                         then setAll false chip else chip)
          (map mkChip shown)))
  = map category_name (filter (fun c => contentTypeOf c = key) shown).
Proof.
  induction shown as [| c shown IH]; [done |]. simpl.
  rewrite !filter_cons. simpl.
  destruct (decide (contentTypeOf c = key)) as [Hk | Hk]; simpl.
  - f_equal. exact IH.
  - exact IH.
Qed.

(** X8: On freshly laid out chips of categories whose names hold no
    markup the select-all button of a section selects exactly the
    categories of that section: the selected names are then the names of
    the fetched categories of that content type, in fetch order. *)
Theorem select_all_of_fresh_section cats p0 p1 key :
  plainNames cats →
  displayCategoryChips cats p0 = (p1, Js.Ok tt) →
  key ∈ map section (sectionButtons p1) →
  getSelectedCategories (selectAllInSection key p1)
  = map category_name (ofType key cats).
Proof.
  intros _ Hd Hb. destruct (displayCategoryChips_ok cats p0 p1 Hd) as (_ & Hc & Hbs).
  assert (Hkey : key ∈ sections ∧ ofType key cats ≠ []).
  { rewrite Hbs in Hb. by apply sectionHeader_sections in Hb. }
  destruct Hkey as [Hk Hne].
  unfold getSelectedCategories, selectedChips.
  rewrite selectAllInSection_chips by done. unfold toggleSection.
  rewrite Hc, filter_mkChip_section, ofType_displayOrder by done.
  assert (Hnot : allSelected (map mkChip (ofType key cats)) = false).
  { destruct (ofType key cats); [done | reflexivity]. }
  rewrite Hnot, selected_after_selecting_section.
  by rewrite ofType_displayOrder.
Qed.

Lemma select_all_of_fresh_section_witness :
  let p1 := fst (displayCategoryChips [movieX; bbc; kids] initialPage) in
  plainNames [movieX; bbc; kids]
  ∧ displayCategoryChips [movieX; bbc; kids] initialPage = (p1, Js.Ok tt)
  ∧ "live" ∈ map section (sectionButtons p1)
  ∧ getSelectedCategories (selectAllInSection "live" p1) = ["BBC"; "Kids"].
Proof.
  intros p1.
  assert (Hplain : plainNames [movieX; bbc; kids]) by (by repeat constructor).
  assert (Hd : displayCategoryChips [movieX; bbc; kids] initialPage = (p1, Js.Ok tt))
    by reflexivity.
  assert (Hb : "live" ∈ map section (sectionButtons p1)) by (vm_compute; constructor).
  split; [exact Hplain |]. split; [exact Hd |]. split; [exact Hb |].
  by rewrite (select_all_of_fresh_section _ _ _ _ Hplain Hd Hb).
Defined.

End Layout.

(** ** Fetching and generating, further *)
Section Generation.

Implicit Types (p : Page) (f : Form).

Lemma loadCategories_ok_reply p data :
  credentialsFilled (form p) →
  loadCategories (CategoriesOk data) p =
    match displayCategoryChips data
            (setCategories data (clearResults (hideAllSteps p))) with
    | (p', Js.Ok _) =>
        (showStep 2 p',
         [ {| endpoint := "/categories"; query := categoriesParams (form p) |} ])
    | (p', Js.Throw m) =>
        (showStep 1 (showError ("Failed to load categories: " +:+ m) p'),
         [ {| endpoint := "/categories"; query := categoriesParams (form p) |} ])
    end.
Proof.
  intros Hf. unfold loadCategories. rewrite guard_passes by done. simpl.
  by destruct (displayCategoryChips _ _) as [? [[] | ?]].
Qed.

(** X9: A 200 reply with a record whose content type names an inherited
    property is treated as a failed fetch, but not undone: the wizard is
    back on step 1 with the TypeError's message, while [categories]
    already holds the reply and the chips and section buttons of the
    previous fetch are gone. *)
Theorem fetch_with_inherited_key_fails_half_way p data :
  credentialsFilled (form p) →
  Exists (fun c => contentTypeOf c ∈ objectPrototypeKeys) data →
  let p' := fst (loadCategories (CategoriesOk data) p) in
  currentStep p' = 1 ∧ activeStep p' = Some 1
  ∧ results p' =
      Some (AlertError ("Failed to load categories: " +:+ pushIsNotAFunction))
  ∧ categories p' = data
  ∧ chips p' = [] ∧ sectionButtons p' = []
  ∧ form p' = form p.
Proof.
  intros Hf Hex p'. subst p'. rewrite loadCategories_ok_reply by done.
  unfold displayCategoryChips, groupCategories.
  rewrite forEach_pushCategory_throws; [by simpl |].
  intros Hg. apply Exists_exists in Hex as (c & Hin & Hc).
  unfold groupable in Hg. rewrite Forall_forall in Hg. by apply (Hg c).
Qed.

Lemma fetch_with_inherited_key_fails_half_way_witness :
  let odd := {| category_id := "9"; category_name := "Odd";
                content_type := Some "toString" |} in
  let p := run [ FillCredentials "http://tv.example" "alice" "secret";
                 LoadCategories (CategoriesOk [bbc; kids]);
                 ToggleChip 0 ] initialPage in
  credentialsFilled (form p)
  ∧ Exists (fun c => contentTypeOf c ∈ objectPrototypeKeys) [bbc; odd]
  ∧ getSelectedCategories p = ["BBC"]
  ∧ chips (fst (loadCategories (CategoriesOk [bbc; odd]) p)) = []
  ∧ categories (fst (loadCategories (CategoriesOk [bbc; odd]) p)) = [bbc; odd].
Proof.
  intros odd p.
  assert (Hf : credentialsFilled (form p)) by (by vm_compute).
  assert (Hex : Exists (fun c => contentTypeOf c ∈ objectPrototypeKeys) [bbc; odd]).
  { apply Exists_cons_tl, Exists_cons_hd.
    apply (bool_decide_eq_true_1 _). reflexivity. }
  destruct (fetch_with_inherited_key_fails_half_way p [bbc; odd] Hf Hex)
    as (_ & _ & _ & Hcats & Hchips & _).
  split; [exact Hf |]. split; [exact Hex |]. split; [reflexivity |].
  split; [exact Hchips | exact Hcats].
Defined.

(** X10: A successful fetch of categories whose names hold no markup
    replaces the categories and lays out fresh chips, none selected,
    whatever was selected before; it shows step 2 without an alert and
    leaves the form and the download link alone.  A playlist requested
    right afterwards carries no group filter. *)
Theorem successful_fetch_resets_selection p data :
  plainNames data →
  credentialsFilled (form p) →
  Forall (fun c => contentTypeOf c ∉ objectPrototypeKeys) data →
  let p' := fst (loadCategories (CategoriesOk data) p) in
  currentStep p' = 2 ∧ activeStep p' = Some 2 ∧ results p' = None
  ∧ categories p' = data
  ∧ chips p' = map mkChip (displayOrder data)
  ∧ getSelectedCategories p' = []
  ∧ form p' = form p ∧ downloadLink p' = downloadLink p
  ∧ objectUrls p' = objectUrls p
  ∧ (∀ reply r, r ∈ snd (confirmGeneration reply p') →
       ("wanted_groups" ∉ Params.keys (query r))
       ∧ ("unwanted_groups" ∉ Params.keys (query r))).
Proof.
  intros _ Hf Hg p'.
  assert (Hp' : p' = showStep 2
            (setSectionButtons
               (sections ≫= sectionHeader
                  {| live := ofType "live" data; vod := ofType "vod" data;
                     series := ofType "series" data |})
               (setChips (map mkChip (displayOrder data))
                  (setSectionButtons [] (setChips []
                     (setCategories data (clearResults (hideAllSteps p)))))))).
  { subst p'. rewrite loadCategories_ok_reply by done.
    unfold displayCategoryChips. rewrite (groupCategories_ok data Hg). simpl.
    unfold sectionChips, displayOrder. simpl. rewrite !map_app, !app_nil_r.
    reflexivity. }
  assert (Hnone : getSelectedCategories p' = []).
  { rewrite Hp'. unfold getSelectedCategories, selectedChips. simpl.
    generalize (displayOrder data). intros shown.
    induction shown as [| c shown IH]; [done |]. simpl.
    by rewrite filter_cons_False. }
  do 5 (split; [by rewrite Hp' |]). split; [exact Hnone |].
  do 3 (split; [by rewrite Hp' |]).
  intros reply r Hr. rewrite confirmGeneration_request in Hr.
  apply list_elem_of_singleton in Hr as ->. simpl. rewrite Hnone.
  unfold playlistParams.
  destruct (includeVod (form p')); split;
    apply (bool_decide_eq_false_1 _); reflexivity.
Qed.

Lemma successful_fetch_resets_selection_witness :
  let p := newsAndSports "include" false in
  plainNames [bbc; kids]
  ∧ credentialsFilled (form p)
  ∧ Forall (fun c => contentTypeOf c ∉ objectPrototypeKeys) [bbc; kids]
  ∧ getSelectedCategories p = ["News"; "Sports"]
  ∧ getSelectedCategories (fst (loadCategories (CategoriesOk [bbc; kids]) p)) = [].
Proof.
  intros p.
  assert (Hf : credentialsFilled (form p)) by (by vm_compute).
  assert (Hg : Forall (fun c => contentTypeOf c ∉ objectPrototypeKeys) [bbc; kids]).
  { repeat constructor; by apply (bool_decide_eq_false_1 _); vm_compute. }
  assert (Hplain : plainNames [bbc; kids]) by (by repeat constructor).
  destruct (successful_fetch_resets_selection p [bbc; kids] Hplain Hf Hg)
    as (_ & _ & _ & _ & _ & Hnone & _).
  split; [exact Hplain |]. split; [exact Hf |]. split; [exact Hg |]. split; [reflexivity | exact Hnone].
Defined.

(** X11: A playlist request that is rejected or answered with a non-2xx
    status brings the wizard back to step 2 with an alert and changes
    nothing else: form, categories, chips with their selection, download
    link and object URLs stay.  The alert shows the transport's message,
    or the body of the reply, or "Failed to generate M3U playlist" when
    that body is empty. *)
Theorem failed_generation_returns_to_selection reply p :
  reply ≠ PlaylistOk →
  let p' := fst (confirmGeneration reply p) in
  currentStep p' = 2 ∧ activeStep p' = Some 2
  ∧ form p' = form p ∧ categories p' = categories p
  ∧ chips p' = chips p ∧ sectionButtons p' = sectionButtons p
  ∧ downloadLink p' = downloadLink p
  ∧ objectUrls p' = objectUrls p ∧ nextObjectUrl p' = nextObjectUrl p
  ∧ ∃ m, results p' = Some (AlertError ("Failed to generate M3U: " +:+ m))
      ∧ (∀ message, reply = PlaylistRejected message → m = message)
      ∧ (∀ text, reply = PlaylistNotOk text → text ≠ "" → m = text)
      ∧ (reply = PlaylistNotOk "" → m = "Failed to generate M3U playlist").
Proof.
  intros Hne p'. subst p'. destruct reply as [message | text |]; [| | done].
  - simpl. repeat split; try done. exists message. repeat split; try done.
    by intros ? [= ->].
  - simpl. repeat split; try done.
    exists (Js.orElse (Some text) "Failed to generate M3U playlist").
    repeat split; try done.
    + intros t [= <-] Ht. simpl. by destruct text.
    + by intros [= ->].
Qed.

Lemma failed_generation_returns_to_selection_witness :
  let p := newsAndSports "include" false in
  PlaylistNotOk "" ≠ PlaylistOk
  ∧ currentStep (fst (confirmGeneration (PlaylistNotOk "") p)) = 2
  ∧ chips (fst (confirmGeneration (PlaylistNotOk "") p)) = chips p
  ∧ results (fst (confirmGeneration (PlaylistNotOk "") p))
    = Some (AlertError "Failed to generate M3U: Failed to generate M3U playlist").
Proof.
  intros p.
  assert (Hne : PlaylistNotOk "" ≠ PlaylistOk) by done.
  destruct (failed_generation_returns_to_selection (PlaylistNotOk "") p Hne)
    as (Hstep & _ & _ & _ & Hchips & _ & _ & _ & _ & m & Hres & _ & _ & Hm).
  split; [exact Hne |]. split; [exact Hstep |]. split; [exact Hchips |].
  rewrite Hres. by rewrite (Hm eq_refl).
Defined.

(** X12: [confirmGeneration] never empties the results pane: the alert of a
    failed attempt is still there after the next attempt succeeded and
    the wizard moved on to step 3.  ([loadCategories] does empty it before
    it fetches.) *)
Theorem generation_keeps_old_alert failure p :
  failure ≠ PlaylistOk →
  let p1 := fst (confirmGeneration failure p) in
  let p2 := fst (confirmGeneration PlaylistOk p1) in
  currentStep p2 = 3
  ∧ displayed (downloadLink p2) = true
  ∧ results p2 = results p1
  ∧ ∃ m, results p2 = Some (AlertError ("Failed to generate M3U: " +:+ m)).
Proof.
  intros Hne p1 p2. subst p1 p2.
  destruct failure as [message | text |]; [| | done]; simpl; eauto 10.
Qed.

Lemma generation_keeps_old_alert_witness :
  let p := newsAndSports "exclude" true in
  PlaylistRejected "Failed to fetch" ≠ PlaylistOk
  ∧ currentStep (fst (confirmGeneration PlaylistOk
                        (fst (confirmGeneration (PlaylistRejected "Failed to fetch") p)))) = 3
  ∧ results (fst (confirmGeneration PlaylistOk
                    (fst (confirmGeneration (PlaylistRejected "Failed to fetch") p))))
    = Some (AlertError "Failed to generate M3U: Failed to fetch").
Proof.
  intros p.
  assert (Hne : PlaylistRejected "Failed to fetch" ≠ PlaylistOk) by done.
  destruct (generation_keeps_old_alert (PlaylistRejected "Failed to fetch") p Hne)
    as (Hstep & _ & Hres & _).
  split; [exact Hne |]. split; [exact Hstep |]. by rewrite Hres.
Defined.

(** X13: Neither query repeats a key; the credentials go out trimmed; every
    playlist query carries [nostreamproxy=true], and a category query
    carries neither that key nor a group filter. *)
Theorem queries_have_distinct_keys p :
  let cq := categoriesParams (form p) in
  let pq := playlistParams (form p) (getSelectedCategories p) in
  NoDup (Params.keys cq) ∧ NoDup (Params.keys pq)
  ∧ Params.getAll "url" cq = [Js.trim (url (form p))]
  ∧ Params.getAll "username" cq = [Js.trim (username (form p))]
  ∧ Params.getAll "password" cq = [Js.trim (password (form p))]
  ∧ Params.getAll "url" pq = [Js.trim (url (form p))]
  ∧ Params.getAll "username" pq = [Js.trim (username (form p))]
  ∧ Params.getAll "password" pq = [Js.trim (password (form p))]
  ∧ Params.getAll "nostreamproxy" pq = ["true"]
  ∧ Params.getAll "nostreamproxy" cq = []
  ∧ Params.getAll "wanted_groups" cq = []
  ∧ Params.getAll "unwanted_groups" cq = [].
Proof.
  intros cq pq. subst cq pq. unfold categoriesParams, playlistParams.
  destruct (includeVod (form p)), (getSelectedCategories p) as [| name names];
    try case_decide; repeat split; try reflexivity;
    apply (bool_decide_unpack _); reflexivity.
Qed.

Lemma trim_empty : Js.trim "" = "".
Proof. reflexivity. Qed.

(** X14: After "use other credentials" or "start over" the inputs are empty,
    so a fetch attempted before they are filled in again sends nothing and
    only shows the validation error. *)
Theorem emptied_credentials_block_fetch reply p :
  snd (loadCategories reply (useOtherCredentials p)) = []
  ∧ results (fst (loadCategories reply (useOtherCredentials p)))
    = Some (AlertError "Please fill in all required fields")
  ∧ currentStep (fst (loadCategories reply (useOtherCredentials p))) = 1
  ∧ snd (loadCategories reply (startOver p)) = []
  ∧ results (fst (loadCategories reply (startOver p)))
    = Some (AlertError "Please fill in all required fields")
  ∧ currentStep (fst (loadCategories reply (startOver p))) = 1.
Proof.
  split; [done |]. split; [done |]. split; [done |].
  unfold startOver. simpl.
  destruct (href (downloadLink p)); by simpl.
Qed.

Lemma filter_filter_same (u : nat) (l : list nat) :
  filter (fun v => v ≠ u) (filter (fun v => v ≠ u) l) = filter (fun v => v ≠ u) l.
Proof.
  rewrite list_filter_filter. apply list_filter_iff. intros v. tauto.
Qed.

(** X15: "Start over" twice is "start over" once, and it keeps the filter
    mode: the radio group is the one control it does not reset. *)
Theorem startOver_idempotent p :
  startOver (startOver p) = startOver p
  ∧ filterMode (form (startOver p)) = filterMode (form p).
Proof.
  unfold startOver. simpl.
  destruct (href (downloadLink p)) as [u |] eqn:E; simpl.
  - rewrite E. simpl. unfold revokeObjectURL, setObjectUrls. simpl.
    by rewrite filter_filter_same.
  - by rewrite E.
Qed.

End Generation.

(** ** What every session keeps *)
Section Sessions.

Implicit Types (p : Page) (e : Event) (events : list Event).

Lemma mkChip_unselected (shown : list RawCategory) :
  unselected (map mkChip shown) = map mkChip shown.
Proof. unfold unselected. rewrite map_map. by apply map_ext. Qed.

Lemma unselected_nil l : unselected l = [] → l = [].
Proof. by destruct l. Qed.

Lemma loadCategories_laidOut reply p :
  laidOut p → laidOut (fst (loadCategories reply p)).
Proof.
  intros Hp. unfold loadCategories.
  destruct (_ || _); [exact Hp |].
  destruct reply as [message | details error | data]; simpl; [exact Hp | exact Hp |].
  unfold displayCategoryChips.
  destruct (groupCategories data) as [g | message] eqn:Hg; simpl.
  - right. simpl.
    rewrite (groupCategories_ok data) in Hg by (by eapply groupCategories_groupable).
    injection Hg as <-. unfold sectionChips. simpl.
    rewrite app_nil_r, <- !map_app. apply mkChip_unselected.
  - by left.
Qed.

Lemma selection_keeps_categories e p :
  selectionEvent e → categories (handle e p) = categories p.
Proof.
  destruct e; simpl; try done; intros _.
  - unfold selectAllInSection. by case_bool_decide.
  - unfold selectAllShortcut. by destruct (_ =? _)%nat.
Qed.

Lemma confirmGeneration_keeps_chips reply p :
  chips (fst (confirmGeneration reply p)) = chips p
  ∧ categories (fst (confirmGeneration reply p)) = categories p.
Proof. by destruct reply. Qed.

Lemma handle_laidOut e p : laidOut p → laidOut (handle e p).
Proof.
  intros Hp.
  assert (Hsel : selectionEvent e → laidOut (handle e p)).
  { intros He. unfold laidOut.
    rewrite (handle_selection_unselected e p He), (selection_keeps_categories e p He).
    destruct Hp as [Hnil | Hp]; [left | by right].
    apply unselected_nil. rewrite (handle_selection_unselected e p He).
    by rewrite Hnil. }
  destruct e; try (by apply Hsel); simpl; try exact Hp.
  - by apply loadCategories_laidOut.
  - unfold laidOut. by destruct (confirmGeneration_keeps_chips reply p) as [-> ->].
  - left. unfold startOver. simpl. by destruct (href (downloadLink p)).
Qed.

Lemma run_laidOut events p : laidOut p → laidOut (run events p).
Proof.
  revert p. induction events as [| e events IH]; intros p Hp; [exact Hp |].
  simpl. apply IH. by apply handle_laidOut.
Qed.

Lemma laidOut_chip p chip :
  laidOut p → chip ∈ chips p →
  ∃ c, c ∈ categories p ∧ known c
       ∧ categoryId chip = category_id c
       ∧ categoryName chip = category_name c
       ∧ contentType chip = contentTypeOf c.
Proof.
  intros [Hnil | Hp] Hin; [rewrite Hnil in Hin; by apply elem_of_nil in Hin |].
  assert (Hin' : setSelected false chip ∈ unselected (chips p)).
  { unfold unselected. apply list_elem_of_fmap. eauto. }
  rewrite Hp in Hin'. apply list_elem_of_fmap in Hin' as (c & Hc & Hcin).
  exists c. unfold displayOrder in Hcin.
  rewrite !elem_of_app, !ofType_elem in Hcin.
  assert (Hk : c ∈ categories p ∧ known c).
  { rewrite known_iff. tauto. }
  destruct Hk as [Hcat Hk]. split; [done |]. split; [done |].
  apply (f_equal categoryId) in Hc as Hid.
  apply (f_equal categoryName) in Hc as Hname.
  apply (f_equal contentType) in Hc as Htype. by simpl in *.
Qed.

(** X16: In every session in which no string that reaches an [innerHTML]
    sink holds markup, whatever the user does and the transport replies,
    the chips on the page are chips of fetched categories of known type:
    each has the id, name and content type of a record in [categories],
    and the selected names are picked, in display order, from the names of
    those records. *)
Theorem selection_stays_within_fetched_categories events :
  plainSession events →
  let p := run events initialPage in
  (∀ chip, chip ∈ chips p →
     ∃ c, c ∈ categories p ∧ known c
          ∧ categoryId chip = category_id c
          ∧ categoryName chip = category_name c
          ∧ contentType chip = contentTypeOf c)
  ∧ getSelectedCategories p
      `sublist_of` map category_name (displayOrder (categories p)).
Proof.
  intros _ p.
  assert (Hp : laidOut p) by (apply run_laidOut; by left).
  split; [intros chip; by apply laidOut_chip |].
  destruct Hp as [Hnil | Hp].
  - unfold getSelectedCategories, selectedChips. rewrite Hnil.
    apply sublist_nil_l.
  - unfold getSelectedCategories, selectedChips.
    rewrite (selected_names_pick _ _ Hp).
    apply (fmap_sublist category_name), pick_sublist.
Qed.

Lemma loadCategories_keeps_urls reply p :
  downloadLink (fst (loadCategories reply p)) = downloadLink p
  ∧ objectUrls (fst (loadCategories reply p)) = objectUrls p
  ∧ nextObjectUrl (fst (loadCategories reply p)) = nextObjectUrl p.
Proof.
  unfold loadCategories. destruct (_ || _); [done |].
  destruct reply as [message | details error | data]; simpl; [done | done |].
  unfold displayCategoryChips. by destruct (groupCategories data).
Qed.

Lemma selection_keeps_urls e p :
  selectionEvent e →
  downloadLink (handle e p) = downloadLink p
  ∧ objectUrls (handle e p) = objectUrls p
  ∧ nextObjectUrl (handle e p) = nextObjectUrl p.
Proof.
  destruct e; simpl; try done; intros _.
  - unfold selectAllInSection. by case_bool_decide.
  - unfold selectAllShortcut. by destruct (_ =? _)%nat.
Qed.

Lemma urlsConsistent_frame p q :
  downloadLink q = downloadLink p
  ∧ objectUrls q = objectUrls p
  ∧ nextObjectUrl q = nextObjectUrl p →
  urlsConsistent p → urlsConsistent q.
Proof. unfold urlsConsistent. by intros (-> & -> & ->). Qed.

Lemma generation_urlsConsistent p :
  urlsConsistent p → urlsConsistent (fst (confirmGeneration PlaylistOk p)).
Proof.
  intros (Hnd & Hlt & Hhref & Hshown). unfold urlsConsistent. simpl.
  rewrite Forall_forall in Hlt. repeat split.
  - apply NoDup_app. split; [done |]. split; [| apply NoDup_singleton].
    intros u Hu Hn. apply list_elem_of_singleton in Hn.
    specialize (Hlt u Hu). lia.
  - apply Forall_app. split; [| by repeat constructor].
    apply Forall_forall. intros u Hu. specialize (Hlt u Hu). lia.
  - intros u [= <-]. lia.
  - intros _. eexists. split; [done |]. apply elem_of_app. right. constructor.
Qed.

Lemma startOver_urlsConsistent p :
  urlsConsistent p → urlsConsistent (startOver p).
Proof.
  intros (Hnd & Hlt & Hhref & Hshown). unfold urlsConsistent, startOver. simpl.
  destruct (href (downloadLink p)) as [u |] eqn:E; simpl.
  - repeat split; try done.
    + by apply NoDup_filter.
    + rewrite Forall_forall in *. intros v Hv.
      apply list_elem_of_filter in Hv as [_ Hv]. by apply Hlt.
    + intros v Hv. rewrite E in Hv. by apply Hhref.
  - repeat split; try done. intros v Hv. by rewrite E in Hv.
Qed.

Lemma handle_urlsConsistent e p : urlsConsistent p → urlsConsistent (handle e p).
Proof.
  intros Hp.
  assert (Hsel : selectionEvent e → urlsConsistent (handle e p)).
  { intros He. apply (urlsConsistent_frame p); [by apply selection_keeps_urls | done]. }
  destruct e; try (by apply Hsel); simpl; try exact Hp.
  - apply (urlsConsistent_frame p); [apply loadCategories_keeps_urls | done].
  - destruct reply; [exact Hp | exact Hp | by apply generation_urlsConsistent].
  - by apply startOver_urlsConsistent.
Qed.

Lemma run_urlsConsistent events p :
  urlsConsistent p → urlsConsistent (run events p).
Proof.
  revert p. induction events as [| e events IH]; intros p Hp; [exact Hp |].
  simpl. apply IH. by apply handle_urlsConsistent.
Qed.

Lemma initialPage_urlsConsistent : urlsConsistent initialPage.
Proof.
  unfold urlsConsistent. simpl. repeat split; try done; constructor.
Qed.

(** X17: In every session the object URLs that are live are pairwise distinct,
    and a download link that is shown points to one of them: the user is
    never offered a revoked URL. *)
Theorem shown_link_is_live events :
  let p := run events initialPage in
  NoDup (objectUrls p)
  ∧ (displayed (downloadLink p) = true →
     ∃ u, href (downloadLink p) = Some u ∧ u ∈ objectUrls p).
Proof.
  intros p.
  destruct (run_urlsConsistent events initialPage initialPage_urlsConsistent)
    as (Hnd & _ & _ & Hshown).
  by split.
Qed.

Lemma filter_fresh (u : nat) (l : list nat) :
  Forall (fun v => v < u) l → filter (fun v => v ≠ u) l = l.
Proof.
  intros Hl. apply filter_all. apply Forall_forall. intros v Hv.
  rewrite Forall_forall in Hl. specialize (Hl v Hv). lia.
Qed.

(** X18: In every session a generation followed at once by "start over"
    leaves the object-URL store as it was before the generation: the URL
    just created is the one revoked, and no other. *)
Theorem start_over_releases_last_generation events :
  let p := run events initialPage in
  objectUrls (startOver (fst (confirmGeneration PlaylistOk p))) = objectUrls p
  ∧ (nextObjectUrl p ∉ objectUrls (startOver (fst (confirmGeneration PlaylistOk p)))).
Proof.
  intros p.
  destruct (run_urlsConsistent events initialPage initialPage_urlsConsistent)
    as (_ & Hlt & _ & _). fold p in Hlt.
  assert (Hurls : objectUrls (startOver (fst (confirmGeneration PlaylistOk p)))
                  = objectUrls p).
  { unfold startOver. simpl. rewrite filter_app, filter_fresh by done.
    rewrite filter_cons_False by (by intros []). by rewrite filter_nil, app_nil_r. }
  split; [exact Hurls |]. rewrite Hurls. intros Hin.
  rewrite Forall_forall in Hlt. specialize (Hlt _ Hin). lia.
Qed.

Lemma selection_stays_within_fetched_categories_witness :
  let events := [ FillCredentials "http://tv.example" "alice" "secret";
                  LoadCategories (CategoriesOk [movieX; radio; bbc]);
                  ToggleChip 1;
                  ConfirmGeneration (PlaylistNotOk "Upstream error");
                  SelectAllInSection "live" ] in
  plainSession events
  ∧ getSelectedCategories (run events initialPage)
      `sublist_of` map category_name (displayOrder (categories (run events initialPage))).
Proof.
  intros events.
  assert (Hplain : plainSession events).
  { unfold plainSession, events. repeat constructor. }
  split; [exact Hplain |].
  exact (proj2 (selection_stays_within_fetched_categories events Hplain)).
Defined.

End Sessions.

(** ** Counter and confirmation summary *)
Section Displays.

Implicit Types (p : Page) (l : list Chip).

Lemma countChip_known counts chip :
  contentType chip ∈ sections →
  countChip counts chip =
    {| liveCount := liveCount counts + length (chipsOfSection "live" [chip]);
       vodCount := vodCount counts + length (chipsOfSection "vod" [chip]);
       seriesCount := seriesCount counts + length (chipsOfSection "series" [chip]) |}.
Proof.
  unfold sections. rewrite !elem_of_cons, elem_of_nil.
  unfold countChip, chipsOfSection. rewrite !filter_cons, !filter_nil.
  destruct counts as [a b c].
  intros [Hk | [Hk | [Hk | []]]]; rewrite Hk; simpl; f_equal; lia.
Qed.

Lemma fold_countChip l counts :
  Forall (fun chip => contentType chip ∈ sections) l →
  fold_left countChip l counts =
    {| liveCount := liveCount counts + length (chipsOfSection "live" l);
       vodCount := vodCount counts + length (chipsOfSection "vod" l);
       seriesCount := seriesCount counts + length (chipsOfSection "series" l) |}.
Proof.
  intros Hl. revert counts. induction Hl as [| chip l Hc _ IH]; intros counts.
  - simpl. destruct counts. simpl. f_equal; lia.
  - simpl. rewrite IH, (countChip_known counts chip Hc). simpl.
    unfold chipsOfSection. rewrite !(filter_cons _ chip l), !filter_cons, !filter_nil.
    f_equal; repeat case_decide; simpl; lia.
Qed.

Lemma sections_split l :
  Forall (fun chip => contentType chip ∈ sections) l →
  length (chipsOfSection "live" l) + length (chipsOfSection "vod" l)
    + length (chipsOfSection "series" l) = length l.
Proof.
  induction 1 as [| chip l Hc _ IH]; [done |].
  unfold chipsOfSection in *. rewrite !filter_cons.
  unfold sections in Hc. rewrite !elem_of_cons, elem_of_nil in Hc.
  destruct Hc as [Hk | [Hk | [Hk | []]]]; rewrite Hk;
    repeat case_decide; try done; simpl; lia.
Qed.

Lemma run_app events e p : run (events ++ [e]) p = handle e (run events p).
Proof. unfold run. by rewrite fold_left_app. Qed.

Lemma runCounter_app events e p shown :
  runCounter (events ++ [e]) p shown
  = handleCounter e (run events p) (runCounter events p shown).
Proof.
  revert p shown. induction events as [| e' events IH]; intros p shown; [done |].
  simpl. by rewrite IH.
Qed.

(** X19: In a session in which no string that reaches an [innerHTML] sink
    holds markup, right after a handler that calls
    [updateSelectionCounter] the counter on the page is the one computed
    from the page as it is then: its counts per content type are the
    numbers of selected live, vod and series chips and add up to the
    number of selected chips; it carries [has-selection] exactly when a
    chip is selected, shows the hint when none is, and otherwise names at
    least one content type. *)
Theorem counter_breakdown_adds_up events e shown0 :
  plainSession (events ++ [e]) →
  refreshesCounter e (run events initialPage) = true →
  let p := run (events ++ [e]) initialPage in
  let shown := runCounter (events ++ [e]) initialPage shown0 in
  let counts := contentTypeCounts (selectedChips p) in
  shown = updateSelectionCounter p
  ∧ liveCount counts = length (chipsOfSection "live" (selectedChips p))
  ∧ vodCount counts = length (chipsOfSection "vod" (selectedChips p))
  ∧ seriesCount counts = length (chipsOfSection "series" (selectedChips p))
  ∧ liveCount counts + vodCount counts + seriesCount counts
    = length (selectedChips p)
  ∧ (hasSelection shown = true ↔ selectedChips p ≠ [])
  ∧ (selectedChips p = [] → selectionText shown = selectionHint)
  ∧ (selectedChips p ≠ [] → breakdownParts counts ≠ []).
Proof.
  intros _ Hcall p shown counts.
  assert (Hshown : shown = updateSelectionCounter p).
  { subst shown p. rewrite runCounter_app, run_app.
    unfold handleCounter. by rewrite Hcall. }
  split; [exact Hshown |]. rewrite Hshown.
  assert (Hp : laidOut p) by (apply run_laidOut; by left).
  assert (Hknown : Forall (fun chip => contentType chip ∈ sections) (selectedChips p)).
  { apply Forall_forall. intros chip Hin.
    apply list_elem_of_filter in Hin as [_ Hin].
    destruct (laidOut_chip p chip Hp Hin) as (c & _ & Hk & _ & _ & ->). exact Hk. }
  assert (Hcounts : counts =
            {| liveCount := length (chipsOfSection "live" (selectedChips p));
               vodCount := length (chipsOfSection "vod" (selectedChips p));
               seriesCount := length (chipsOfSection "series" (selectedChips p)) |}).
  { subst counts. unfold contentTypeCounts. by rewrite fold_countChip. }
  pose proof (sections_split _ Hknown) as Hsum.
  rewrite Hcounts. simpl. do 3 (split; [done |]). split; [exact Hsum |].
  unfold updateSelectionCounter. split; [| split].
  - destruct (selectedChips p); simpl; [by split | by split].
  - by intros ->.
  - intros Hne. unfold breakdownParts. simpl.
    destruct (selectedChips p) as [| chip rest] eqn:E; [done |].
    simpl in Hsum.
    destruct (length (chipsOfSection "live" (chip :: rest))) as [| a];
      [| by simpl].
    destruct (length (chipsOfSection "vod" (chip :: rest))) as [| b];
      [| by simpl].
    destruct (length (chipsOfSection "series" (chip :: rest))) as [| c];
      [simpl in Hsum; lia | by simpl].
Qed.

Lemma counter_breakdown_adds_up_witness :
  let events := [ FillCredentials "http://tv.example" "alice" "secret";
                  LoadCategories (CategoriesOk [movieX; bbc; kids]);
                  ToggleChip 2 ] in
  let shown0 := {| selectionText := selectionHint; hasSelection := false |} in
  plainSession (events ++ [SelectAllInSection "live"])
  ∧ refreshesCounter (SelectAllInSection "live") (run events initialPage) = true
  ∧ runCounter (events ++ [SelectAllInSection "live"]) initialPage shown0
    = {| selectionText := "3 categories will be excluded (2 Live TV, 1 Movies/VOD)";
         hasSelection := true |}.
Proof.
  intros events shown0.
  assert (Hplain : plainSession (events ++ [SelectAllInSection "live"])).
  { unfold plainSession, events. simpl. repeat constructor. }
  assert (Hcall : refreshesCounter (SelectAllInSection "live")
                    (run events initialPage) = true) by reflexivity.
  split; [exact Hplain |]. split; [exact Hcall |].
  destruct (counter_breakdown_adds_up events (SelectAllInSection "live") shown0
              Hplain Hcall) as (Hshown & _).
  rewrite Hshown. by vm_compute.
Defined.

(** X25: [startOver] and [useOtherCredentials] never call
    [updateSelectionCounter]: the counter keeps what it showed.  After
    "start over" no chip is left, so a counter that carried
    [has-selection] goes on carrying it with nothing selected, as at the
    end of the session fetch, select a chip, start over. *)
Theorem counter_goes_stale_on_start_over events shown0 :
  runCounter (events ++ [StartOver]) initialPage shown0
  = runCounter events initialPage shown0
  ∧ runCounter (events ++ [UseOtherCredentials]) initialPage shown0
    = runCounter events initialPage shown0
  ∧ selectedChips (run (events ++ [StartOver]) initialPage) = []
  ∧ hasSelection
      (runCounter [ FillCredentials "http://tv.example" "alice" "secret";
                    LoadCategories (CategoriesOk [bbc]);
                    ToggleChip 0; StartOver ] initialPage shown0) = true.
Proof.
  rewrite !runCounter_app, run_app. repeat split.
  unfold selectedChips, startOver. simpl.
  by destruct (href (downloadLink (run events initialPage))).
Qed.

(** X20: When the trimmed service URL and user name are their own text
    under [innerHTML] (no [<], no [&], no NUL, no carriage return), the
    confirmation summary shows its rows as written, and they announce what
    [confirmGeneration] sends when it is confirmed on the same page: the
    service URL and user name of the query, VOD exactly when the query
    carries [include_vod], and under "Filter Mode" all categories when no
    group key is sent, or the number of names sent under [wanted_groups]
    ("Include") or [unwanted_groups] ("Exclude").  The total it shows is
    the number of fetched records. *)
Theorem confirmation_announces_request p :
  Js.literalText (Js.trim (url (form p))) = true →
  Js.literalText (Js.trim (username (form p))) = true →
  let rows := showConfirmation p in
  let q := playlistParams (form p) (getSelectedCategories p) in
  let names := getSelectedCategories p in
  summaryRow "Service URL:" rows = Params.getAll "url" q
  ∧ summaryRow "Username:" rows = Params.getAll "username" q
  ∧ summaryRow "Total Categories:" rows = [pretty (length (categories p))]
  ∧ (summaryRow "Content Type:" rows = ["Live TV + VOD/Movies/Shows"]
     ↔ Params.getAll "include_vod" q = ["true"])
  ∧ (summaryRow "Content Type:" rows = ["Live TV only"]
     ↔ Params.getAll "include_vod" q = [])
  ∧ (names = [] →
     summaryRow "Filter Mode:" rows
       = ["All " +:+ pretty (length (categories p)) +:+ " categories"]
     ∧ Params.getAll "wanted_groups" q = []
     ∧ Params.getAll "unwanted_groups" q = [])
  ∧ (names ≠ [] → filterMode (form p) = "include" →
     summaryRow "Filter Mode:" rows
       = ["Include " +:+ pretty (length names) +:+ " selected categories"]
     ∧ Params.getAll "wanted_groups" q = [Js.join "," names])
  ∧ (names ≠ [] → filterMode (form p) ≠ "include" →
     summaryRow "Filter Mode:" rows
       = ["Exclude " +:+ pretty (length names) +:+ " selected categories"]
     ∧ Params.getAll "unwanted_groups" q = [Js.join "," names]).
Proof.
  intros _ _ rows q names. subst rows q names.
  unfold showConfirmation, playlistParams.
  destruct (getSelectedCategories p) as [| name rest];
    destruct (includeVod (form p)); try case_decide;
    repeat split; try done; try (intros; congruence).
Qed.

Lemma confirmation_announces_request_witness :
  let p := newsAndSports "include" true in
  Js.literalText (Js.trim (url (form p))) = true
  ∧ Js.literalText (Js.trim (username (form p))) = true
  ∧ summaryRow "Service URL:" (showConfirmation p) = ["http://tv.example"]
  ∧ summaryRow "Filter Mode:" (showConfirmation p)
    = ["Include 2 selected categories"]
  ∧ Params.getAll "wanted_groups"
      (playlistParams (form p) (getSelectedCategories p)) = ["News,Sports"].
Proof.
  intros p.
  assert (Hu : Js.literalText (Js.trim (url (form p))) = true) by reflexivity.
  assert (Hn : Js.literalText (Js.trim (username (form p))) = true) by reflexivity.
  destruct (confirmation_announces_request p Hu Hn)
    as (Hurl & _ & _ & _ & _ & _ & Hinc & _).
  assert (Hsel : getSelectedCategories p ≠ []) by (by vm_compute).
  destruct (Hinc Hsel eq_refl) as [Hrow Hsent].
  split; [exact Hu |]. split; [exact Hn |].
  split; [rewrite Hurl; vm_compute; reflexivity |].
  split; [rewrite Hrow | rewrite Hsent]; vm_compute; reflexivity.
Defined.

End Displays.

(** ** Trimming on blur *)
Section Blur.

Implicit Types (s t r w : string).

Lemma stripPrefix_eq t s r : Js.stripPrefix t s = Some r → s = t +:+ r.
Proof.
  revert s. induction t as [| a t IH]; intros s Hs; simpl in *.
  - by injection Hs as ->.
  - destruct s as [| b s]; [done |].
    destruct (Ascii.eqb a b) eqn:E; [| done].
    apply Ascii.eqb_eq in E as ->. by rewrite (IH s Hs).
Qed.

Lemma stripPrefix_app t s r w :
  Js.stripPrefix t s = Some r → Js.stripPrefix t (s +:+ w) = Some (r +:+ w).
Proof.
  revert s. induction t as [| a t IH]; intros s Hs; simpl in *.
  - by injection Hs as ->.
  - destruct s as [| b s]; [done |]. simpl.
    destruct (Ascii.eqb a b); [by apply IH | done].
Qed.

Lemma stripPrefix_both t1 t2 s r1 r2 :
  Js.stripPrefix t1 s = Some r1 → Js.stripPrefix t2 s = Some r2 →
  (∃ x, Js.stripPrefix t1 t2 = Some x) ∨ (∃ x, Js.stripPrefix t2 t1 = Some x).
Proof.
  revert t2 s. induction t1 as [| a t1 IH]; intros t2 s H1 H2.
  - left. simpl. eauto.
  - destruct t2 as [| b t2]; [right; simpl; eauto |].
    destruct s as [| c s]; [done |]. simpl in *.
    destruct (Ascii.eqb a c) eqn:Ea; [| done].
    destruct (Ascii.eqb b c) eqn:Eb; [| done].
    apply Ascii.eqb_eq in Ea as ->. apply Ascii.eqb_eq in Eb as ->.
    rewrite Ascii.eqb_refl. by apply (IH t2 s).
Qed.

(** No white-space sequence starts with another one. *)
Lemma whiteSpace_prefix_free t1 t2 x :
  t1 ∈ Js.whiteSpace → t2 ∈ Js.whiteSpace →
  Js.stripPrefix t1 t2 = Some x → t1 = t2.
Proof.
  intros H1 H2 Hx.
  assert (Hall : forallb (fun a => forallb (fun b =>
                    match Js.stripPrefix a b with
                    | Some _ => String.eqb a b
                    | None => true
                    end) Js.whiteSpace) Js.whiteSpace = true)
    by (vm_compute; reflexivity).
  rewrite forallb_forall in Hall.
  apply list_elem_of_In in H1, H2.
  specialize (Hall t1 H1). rewrite forallb_forall in Hall.
  specialize (Hall t2 H2). rewrite Hx in Hall. by apply String.eqb_eq.
Qed.

Lemma firstSome_none {A B} (f : A → option B) l :
  Js.firstSome f l = None → ∀ x, x ∈ l → f x = None.
Proof.
  induction l as [| y l IH]; simpl; intros Hn x Hx; [by apply elem_of_nil in Hx |].
  destruct (f y) eqn:E; [done |].
  apply elem_of_cons in Hx as [-> | Hx]; [done | by apply IH].
Qed.

Lemma dropWhiteSpace_app s r w :
  Js.dropWhiteSpace s = Some r → Js.dropWhiteSpace (s +:+ w) = Some (r +:+ w).
Proof.
  intros Hs. apply firstSome_elem in Hs as (t0 & Hin0 & H0).
  pose proof (stripPrefix_app t0 s r w H0) as H0'.
  destruct (Js.dropWhiteSpace (s +:+ w)) as [r' |] eqn:E.
  - apply firstSome_elem in E as (t1 & Hin1 & H1).
    assert (Heq : t1 = t0).
    { destruct (stripPrefix_both t1 t0 _ _ _ H1 H0') as [[x Hx] | [x Hx]].
      - by apply (whiteSpace_prefix_free t1 t0 x).
      - symmetry. by apply (whiteSpace_prefix_free t0 t1 x). }
    subst t1. congruence.
  - by rewrite (firstSome_none _ _ E t0 Hin0) in H0'.
Qed.

Lemma trimStartN_enough (n m : nat) s :
  (String.length s ≤ n)%nat → (String.length s ≤ m)%nat →
  Js.trimStartN n s = Js.trimStartN m s.
Proof.
  revert m s. induction n as [| n IH]; intros m s Hn Hm.
  - destruct s; [| simpl in Hn; lia]. by destruct m.
  - destruct m as [| m]; [destruct s; [done | simpl in Hm; lia] |]. simpl.
    destruct (Js.dropWhiteSpace s) as [r |] eqn:E; [| done].
    apply dropWhiteSpace_shorter in E. apply IH; lia.
Qed.

Lemma trimStart_unfold s :
  Js.trimStart s =
    match Js.dropWhiteSpace s with
    | Some r => Js.trimStart r
    | None => s
    end.
Proof.
  unfold Js.trimStart. destruct s as [| c s]; [done |].
  simpl String.length. simpl Js.trimStartN.
  destruct (Js.dropWhiteSpace (String c s)) as [r |] eqn:E; [| done].
  apply dropWhiteSpace_shorter in E. simpl in E. apply trimStartN_enough; lia.
Qed.

Lemma trimStart_app_blank s w :
  Js.trimStart s = "" → Js.trimStart (s +:+ w) = Js.trimStart w.
Proof.
  remember (String.length s) as n eqn:Hn. revert s Hn.
  induction n as [n IH] using lt_wf_ind. intros s Hn Hblank.
  rewrite trimStart_unfold in Hblank.
  destruct (Js.dropWhiteSpace s) as [r |] eqn:E.
  - rewrite (trimStart_unfold (s +:+ w)), (dropWhiteSpace_app s r w E).
    apply (IH (String.length r)); [| done | done].
    apply dropWhiteSpace_shorter in E. lia.
  - by subst s.
Qed.

Lemma trimEnd_split s : ∃ w, s = Js.trimEnd s +:+ w ∧ Js.trimStart w = "".
Proof.
  induction s as [| c s (w & Hs & Hw)]; [by exists "" |].
  simpl Js.trimEnd. destruct (Js.falsy (Js.trimStart (String c s))) eqn:E.
  - exists (String c s). split; [done |]. by apply falsy_true.
  - exists w. split; [| done]. change (String c s = String c (Js.trimEnd s +:+ w)).
    by f_equal.
Qed.

Lemma trimEnd_idempotent s : Js.trimEnd (Js.trimEnd s) = Js.trimEnd s.
Proof.
  induction s as [| c s IH]; [done |].
  simpl Js.trimEnd at 2. simpl Js.trimEnd at 3.
  destruct (Js.falsy (Js.trimStart (String c s))) eqn:E; [done |].
  simpl. destruct (trimEnd_split s) as (w & Hs & Hw).
  assert (Hkeep : Js.falsy (Js.trimStart (String c (Js.trimEnd s))) = false).
  { destruct (Js.falsy (Js.trimStart (String c (Js.trimEnd s)))) eqn:E'; [| done].
    apply falsy_true in E'.
    pose proof (trimStart_app_blank (String c (Js.trimEnd s)) w E') as Hall.
    change (String c (Js.trimEnd s) +:+ w) with (String c (Js.trimEnd s +:+ w)) in Hall.
    rewrite <- Hs, Hw in Hall.
    apply falsy_false in E. congruence. }
  by rewrite Hkeep, IH.
Qed.

Lemma trimEnd_keeps_start s :
  Js.dropWhiteSpace s = None → Js.dropWhiteSpace (Js.trimEnd s) = None.
Proof.
  intros Hs. destruct (trimEnd_split s) as (w & Hsplit & _).
  destruct (Js.dropWhiteSpace (Js.trimEnd s)) as [r |] eqn:E; [| done].
  apply (dropWhiteSpace_app _ _ w) in E. rewrite <- Hsplit in E. congruence.
Qed.

Lemma trim_idempotent s : Js.trim (Js.trim s) = Js.trim s.
Proof.
  unfold Js.trim.
  assert (Hstart : Js.trimStart (Js.trimEnd (Js.trimStart s))
                   = Js.trimEnd (Js.trimStart s)).
  { rewrite trimStart_unfold.
    by rewrite (trimEnd_keeps_start _ (trimStart_done s)). }
  by rewrite Hstart, trimEnd_idempotent.
Qed.

Lemma loadCategories_requests reply p :
  snd (loadCategories reply p) =
    if Js.falsy (Js.trim (url (form p))) || Js.falsy (Js.trim (username (form p)))
       || Js.falsy (Js.trim (password (form p)))
    then []
    else [ {| endpoint := "/categories"; query := categoriesParams (form p) |} ].
Proof.
  unfold loadCategories. destruct (_ || _); [done |].
  by destruct (receiveCategories _ _) as [? [[] | ?]].
Qed.

(** X21: Trimming an input when it loses focus changes nothing that is sent:
    a page whose inputs were blurred sends the same category request (or
    the same refusal) and the same playlist query as the page itself, and
    blurring an input a second time changes nothing at all. *)
Theorem blur_changes_no_request input reply p :
  blur input (blur input p) = blur input p
  ∧ snd (loadCategories reply (blur input p)) = snd (loadCategories reply p)
  ∧ snd (confirmGeneration PlaylistOk (blur input p))
    = snd (confirmGeneration PlaylistOk p)
  ∧ chips (blur input p) = chips p
  ∧ categories (blur input p) = categories p.
Proof.
  split; [| split; [| split]].
  - destruct input; unfold blur, setForm; simpl; by rewrite trim_idempotent.
  - rewrite !loadCategories_requests. unfold categoriesParams.
    destruct input; simpl; by rewrite trim_idempotent.
  - rewrite !confirmGeneration_request. unfold playlistParams, getSelectedCategories, selectedChips.
    destruct input; simpl; by rewrite trim_idempotent.
  - by destruct input.
Qed.

End Blur.

(** ** Keyboard shortcuts *)
Section Keyboard.

Implicit Types (p : Page) (e : KeyDown).

(** X22: No shortcut generates a playlist: whatever key is pressed, the only
    request the listener can send is the category request, and only from
    step 1.  Without Ctrl or Cmd, and on Escape, the page stays as it is;
    on step 3 no key changes the page; Ctrl/Cmd+Enter on step 2 opens the
    confirmation and sends nothing; Ctrl/Cmd+A suppresses the browser's
    select-all on every step although it toggles chips on step 2 only. *)
Theorem shortcuts_never_generate reply e p :
  let out := keydown reply e p in
  (∀ r, r ∈ sent out → endpoint r = "/categories" ∧ currentStep p = 1)
  ∧ (ctrlKey e || metaKey e = false → pageAfter out = p ∧ sent out = [])
  ∧ (key e = "Escape" → pageAfter out = p ∧ sent out = [] ∧ modal out = ModalClosed)
  ∧ (currentStep p = 3 → pageAfter out = p ∧ sent out = [])
  ∧ (currentStep p = 2 → ctrlKey e || metaKey e = true → key e = "Enter" →
     pageAfter out = p ∧ sent out = []
     ∧ modal out = ModalOpened (showConfirmation p))
  ∧ (ctrlKey e || metaKey e = true → key e = "a" →
     defaultPrevented out = true ∧ sent out = []
     ∧ (currentStep p ≠ 2 → pageAfter out = p)).
Proof.
  intros out. subst out. unfold keydown.
  split; [| split; [| split; [| split; [| split]]]].
  - intros r.
    destruct (decide (key e = "Escape")); simpl;
      [intros Hr; by apply elem_of_nil in Hr |].
    destruct (ctrlKey e || metaKey e); simpl;
      [| intros Hr; by apply elem_of_nil in Hr].
    destruct (decide (key e = "Enter")); simpl;
      [| destruct (decide (key e = "a")); simpl;
         intros Hr; by apply elem_of_nil in Hr].
    destruct (currentStep p =? 1)%nat eqn:E1; simpl.
    + rewrite loadCategories_requests. destruct (_ || _); simpl;
        [intros Hr; by apply elem_of_nil in Hr |].
      intros Hr. apply list_elem_of_singleton in Hr as ->.
      apply Nat.eqb_eq in E1. by split.
    + destruct (_ =? 2)%nat; simpl; intros Hr; by apply elem_of_nil in Hr.
  - intros ->. by case_decide.
  - intros ->. by simpl.
  - intros Hstep. rewrite Hstep. simpl.
    destruct (decide (key e = "Escape")); simpl; [done |].
    destruct (ctrlKey e || metaKey e); simpl; [| done].
    destruct (decide (key e = "Enter")); simpl; [done |].
    destruct (decide (key e = "a")); simpl; [| done].
    unfold selectAllShortcut. by rewrite Hstep.
  - intros Hstep -> Hkey. rewrite Hkey, Hstep. by simpl.
  - intros -> Hkey. rewrite Hkey. simpl. repeat split.
    intros Hstep. unfold selectAllShortcut.
    apply Nat.eqb_neq in Hstep. by rewrite Hstep.
Qed.

End Keyboard.

(** ** Commas in category names *)
Section Commas.

Lemma append_assoc (a b c : string) : (a +:+ b) +:+ c = a +:+ (b +:+ c).
Proof.
  induction a as [| x a IH]; [done |].
  change (String x ((a +:+ b) +:+ c) = String x (a +:+ (b +:+ c))). by rewrite IH.
Qed.

Lemma join_merges_comma (x y : string) (rest : list string) :
  Js.join "," ((x +:+ "," +:+ y) :: rest) = Js.join "," (x :: y :: rest).
Proof.
  destruct rest as [| z rest]; [done |].
  change (Js.join "," ((x +:+ "," +:+ y) :: z :: rest))
    with ((x +:+ "," +:+ y) +:+ "," +:+ Js.join "," (z :: rest)).
  change (Js.join "," (x :: y :: z :: rest))
    with (x +:+ "," +:+ y +:+ "," +:+ Js.join "," (z :: rest)).
  by rewrite !append_assoc.
Qed.

(** X23: Commas in names are not escaped: a selection holding one category
    named ["x,y"] sends the very same playlist query as a selection
    holding the two categories ["x"] and ["y"] at that place, so the
    backend cannot tell the two apart. *)
Theorem comma_in_name_is_not_escaped (f : Form) (x y : string) (rest : list string) :
  playlistParams f ((x +:+ "," +:+ y) :: rest) = playlistParams f (x :: y :: rest)
  ∧ (x +:+ "," +:+ y) :: rest ≠ x :: y :: rest.
Proof.
  split.
  - unfold playlistParams. by rewrite join_merges_comma.
  - intros Heq. apply (f_equal length) in Heq. simpl in Heq. lia.
Qed.

End Commas.
